(** * Takopi: resolver, progress renderer, command menu and topic rename

    A shallow embedding of the dispatch core of Takopi
    ([transport_runtime.py], [render.py], [telegram/bridge.py]) together
    with the properties its specification states about it.

    Python values are modelled directly: [str | None] is [option string],
    a [dict] is a [gmap], a [deque]/[list] is a [list] read with [!!] and
    written with [<[ i := x ]>]; a raised exception is the [Raise] branch
    of [result]. *)

From Stdlib Require Import ZArith Lia.
From stdpp Require Import gmap strings list fin_maps pretty sorting.

Open Scope string_scope.
Open Scope list_scope.

Set Warnings "-clear-no-such-hyp".

(** ** Exceptions and the error monad *)

Inductive exn : Type :=
  | DirectiveError
  | RunnerUnavailableError
  | IndexError.

Inductive result (A : Type) : Type :=
  | Ok (a : A)
  | Raise (e : exn).

Arguments Ok {A} a.
Arguments Raise {A} e.

#[global] Instance result_ret : MRet result := λ A a, Ok a.

#[global] Instance result_bind : MBind result := λ A B k m,
  match m with
  | Ok a => k a
  | Raise e => Raise e
  end.

(** Python truthiness of a [str | None] value: [None] and the empty
    string are falsy. *)
Definition truthy (o : option string) : bool :=
  match o with
  | Some s => negb (String.eqb s "")
  | None => false
  end.

(** [a or b] on [str | None] operands. *)
Definition py_or (a b : option string) : option string :=
  if truthy a then a else b.

(** ** The resolver ([transport_runtime.py]) *)

Module Resolver.

Definition EngineId : Type := string.

Record RunContext : Type := mkRunContext {
  project : option string;
  branch : option string
}.

Record ResumeToken : Type := mkResumeToken {
  engine : EngineId;
  value : string
}.

(** The value [parse_directives] hands back. *)
Record ParsedDirectives : Type := mkParsedDirectives {
  d_prompt : string;
  d_engine : option EngineId;
  d_project : option string;
  d_branch : option string
}.

Record ProjectConfig : Type := mkProjectConfig {
  alias : string;
  pc_default_engine : option EngineId;
  pc_chat_id : option Z
}.

(** [ProjectsConfig]: [projects] and [default_project] are read by the
    resolver; [project_for_chat] lives in [config.py], which is not
    part of the sources at hand, and is carried as a field. *)
Record ProjectsConfig : Type := mkProjectsConfig {
  projects : gmap string ProjectConfig;
  default_project : option string;
  project_for_chat : option Z → option string
}.

(** A runner is identified by the engine it drives. *)
Record Runner : Type := mkRunner { runner_engine : EngineId }.

Record RunnerEntry : Type := mkRunnerEntry {
  re_engine : EngineId;
  re_runner : Runner;
  re_available : bool;
  re_issue : option string
}.

(** [AutoRouter]: the entries, the default engine, and resume-line
    detection, which delegates to each runner and is carried as a
    field. *)
Record AutoRouter : Type := mkAutoRouter {
  entries : list RunnerEntry;
  router_default_engine : EngineId;
  resolve_resume : string → option string → option ResumeToken
}.

Definition engine_ids (r : AutoRouter) : list EngineId :=
  re_engine <$> entries r.

(** Modelled from the spec: [AutoRouter.entry_for_engine] is in
    [router.py], which is not among the sources.  The spec pins a
    resumed run to "the token's owning engine" and names
    [RunnerUnavailableError] for an engine without a runner: the entry
    is the first one registered for the engine, the router default
    standing in for an absent engine. *)
Definition entry_for_engine (r : AutoRouter) (e : option EngineId)
  : result RunnerEntry :=
  let wanted := default (router_default_engine r) e in
  match List.find (fun en => String.eqb (re_engine en) wanted) (entries r) with
  | Some en => Ok en
  | None => Raise RunnerUnavailableError
  end.

(** Modelled from the spec: [AutoRouter.entry_for] is in [router.py],
    which is not among the sources.  "Engine is pinned by the token's
    owning session": the entry is the one of [resume.engine]. *)
Definition entry_for (r : AutoRouter) (t : ResumeToken) : result RunnerEntry :=
  entry_for_engine r (Some (engine t)).

Record ResolvedMessage : Type := mkResolvedMessage {
  prompt : string;
  resume_token : option ResumeToken;
  engine_override : option EngineId;
  context : option RunContext
}.

Record ResolvedRunner : Type := mkResolvedRunner {
  rr_engine : EngineId;
  rr_runner : Runner;
  rr_available : bool;
  rr_issue : option string
}.

Record TransportRuntime : Type := mkTransportRuntime {
  _router : AutoRouter;
  _projects : ProjectsConfig
}.

Section WithDirectives.

(** [directives.py] is not among the sources: its two parsers are
    parameters of the resolver.  [parse_directives] may raise
    [DirectiveError]. *)
Variable parse_directives :
  string → list EngineId → ProjectsConfig → result ParsedDirectives.
Variable parse_context_line :
  option string → ProjectsConfig → option RunContext.

(** The [default_engine] of a configured project, as the two
    identical lookups in [resolve_message] compute it. *)
Definition project_default_engine (pcfg : ProjectsConfig) (key : string)
  : option EngineId :=
  match projects pcfg !! key with
  | Some p => pc_default_engine p
  | None => None
  end.

Definition resolve_message (self : TransportRuntime)
    (text : string) (reply_text : option string) (chat_id : option Z)
  : result ResolvedMessage :=
  directives ← parse_directives text (engine_ids (_router self)) (_projects self);
  let reply_ctx := parse_context_line reply_text (_projects self) in
  let resume := resolve_resume (_router self) (d_prompt directives) reply_text in
  let chat_project := project_for_chat (_projects self) chat_id in
  match resume with
  | Some tok =>
      let context :=
        match reply_ctx, chat_project with
        | None, Some cp => Some (mkRunContext (Some cp) None)
        | _, _ => reply_ctx
        end in
      Ok (mkResolvedMessage (d_prompt directives) (Some tok) None context)
  | None =>
      match reply_ctx with
      | Some rc =>
          let engine_override :=
            match project rc with
            | Some key => project_default_engine (_projects self) key
            | None => None
            end in
          Ok (mkResolvedMessage (d_prompt directives) None engine_override
                (Some rc))
      | None =>
          let project_key :=
            match d_project directives with
            | Some p => Some p
            | None => py_or chat_project (default_project (_projects self))
            end in
          let context :=
            match project_key, d_branch directives with
            | None, None => None
            | _, _ => Some (mkRunContext project_key (d_branch directives))
            end in
          let engine_override :=
            match d_engine directives, project_key with
            | None, Some key => project_default_engine (_projects self) key
            | eo, _ => eo
            end in
          Ok (mkResolvedMessage (d_prompt directives) None engine_override
                context)
      end
  end.

End WithDirectives.

Definition resolve_runner (self : TransportRuntime)
    (resume : option ResumeToken) (engine_override : option EngineId)
  : result ResolvedRunner :=
  entry ← match resume with
          | None => entry_for_engine (_router self) engine_override
          | Some tok => entry_for (_router self) tok
          end;
  Ok (mkResolvedRunner (re_engine entry) (re_runner entry)
        (re_available entry) (re_issue entry)).

End Resolver.

(** ** The progress renderer ([render.py]) *)

Module Render.

Import Resolver.

Definition STATUS_RUNNING : string := "▸".
Definition STATUS_UPDATE : string := "↻".
Definition STATUS_DONE : string := "✓".
Definition STATUS_FAIL : string := "✗".

(** The values a [detail] map can hold, as far as the renderer tells
    them apart. *)
#[warnings="-register-all"] Inductive pyval : Type :=
  | PNone
  | PBool (b : bool)
  | PInt (z : Z)
  | PStr (s : string)
  | PList (items : list pyval)
  | PDict (items : gmap string pyval)
  | POther.

(** [isinstance(v, int)]: [bool] is a subclass of [int], with
    [True == 1] and [False == 0]. *)
Definition as_int (v : pyval) : option Z :=
  match v with
  | PInt z => Some z
  | PBool b => Some (if b then 1 else 0)%Z
  | _ => None
  end.

(** [str(v)] inside an f-string, for the values [as_int] accepts. *)
Definition int_repr (v : pyval) : string :=
  match v with
  | PBool true => "True"
  | PBool false => "False"
  | PInt z => pretty z
  | _ => ""
  end.

Inductive ActionKind : Type :=
  | command | tool | web_search | file_change | note | warning | turn.

Inductive ActionPhase : Type :=
  | started | updated | completed.

#[global] Instance ActionKind_eq_dec : EqDecision ActionKind.
Proof. solve_decision. Defined.

#[global] Instance ActionPhase_eq_dec : EqDecision ActionPhase.
Proof. solve_decision. Defined.

Record Action : Type := mkAction {
  id : option string;
  kind : ActionKind;
  title : string;
  detail : option (gmap string pyval)
}.

Inductive TakopiEvent : Type :=
  | StartedEvent (engine : EngineId) (resume : ResumeToken)
      (title : option string)
  | ActionEvent (action : Action) (phase : ActionPhase) (ok : option bool)
  | CompletedEvent.

(** [exit_code = (action.detail or {}).get("exit_code")] followed by
    [isinstance(exit_code, int) and exit_code != 0]. *)
Definition exit_code (action : Action) : option pyval :=
  default ∅ (detail action) !! "exit_code".

Definition nonzero_exit (action : Action) : option pyval :=
  match exit_code action with
  | Some v =>
      match as_int v with
      | Some z => if bool_decide (z ≠ 0%Z) then Some v else None
      | None => None
      end
  | None => None
  end.

Definition action_status_symbol (action : Action) (completed : bool)
    (ok : option bool) : string :=
  if negb completed then STATUS_RUNNING
  else match ok with
       | Some b => if b then STATUS_DONE else STATUS_FAIL
       | None =>
           match nonzero_exit action with
           | Some _ => STATUS_FAIL
           | None => STATUS_DONE
           end
       end.

Definition action_exit_suffix (action : Action) : string :=
  match nonzero_exit action with
  | Some v => " (exit " +:+ int_repr v +:+ ")"
  | None => ""
  end.

Definition phase_status_and_suffix (action : Action) (phase : ActionPhase)
    (ok : option bool) : string * string :=
  match phase with
  | completed =>
      (action_status_symbol action true ok, action_exit_suffix action)
  | updated => (STATUS_UPDATE, "")
  | started => (STATUS_RUNNING, "")
  end.

(** *** Bounded deques *)

(** [deque.popleft()]: [IndexError] on an empty deque. *)
Definition popleft {A : Type} (d : list A) : result (list A) :=
  match d with
  | [] => Raise IndexError
  | _ :: rest => Ok rest
  end.

(** [deque.append(x)] on a deque built with [maxlen]: a full deque
    drops its leftmost element. *)
Definition deque_append {A : Type} (maxlen : nat) (d : list A) (x : A)
  : list A :=
  if (maxlen =? 0)%nat then d
  else if (maxlen <=? length d)%nat then drop 1 d ++ [x]
  else d ++ [x].

(** [d[i] = x]: [IndexError] out of range. *)
Definition deque_set {A : Type} (d : list A) (i : nat) (x : A)
  : result (list A) :=
  if (i <? length d)%nat then Ok (<[i:=x]> d) else Raise IndexError.

(** [d[i]]: [IndexError] out of range. *)
Definition deque_get {A : Type} (d : list A) (i : nat) : result A :=
  match d !! i with
  | Some x => Ok x
  | None => Raise IndexError
  end.

Record ExecProgressRenderer : Type := mkRenderer {
  max_actions : nat;
  command_width : option Z;
  recent_actions : list string;
  _recent_action_ids : list string;
  _recent_action_completed : list bool;
  action_count : Z;
  _started_counts : gmap string Z;
  resume_token : option ResumeToken;
  session_title : option string
}.

(** [ExecProgressRenderer(max_actions, command_width)].  The deques
    are built with [maxlen=max_actions], which rejects a negative
    bound: [max_actions] is a natural number. *)
Definition new (max_actions : nat) (command_width : option Z)
  : ExecProgressRenderer :=
  mkRenderer max_actions command_width [] [] [] 0 ∅ None None.

(** The loop of [_append_action]: indices [i-1], ..., [0], looking for
    the rightmost entry of [action_id] that is not completed. *)
Fixpoint find_open (ids : list string) (done : list bool)
    (action_id : string) (i : nat) : result (option nat) :=
  match i with
  | O => Ok None
  | S j =>
      x ← deque_get ids j;
      if String.eqb x action_id then
        c ← deque_get done j;
        if negb c then Ok (Some j) else find_open ids done action_id j
      else find_open ids done action_id j
  end.

Definition _append_action (self : ExecProgressRenderer)
    (action_id : string) (completed : bool) (line : string)
  : result ExecProgressRenderer :=
  found ← find_open (_recent_action_ids self) (_recent_action_completed self)
            action_id (length (_recent_action_ids self));
  match found with
  | Some i =>
      lines ← deque_set (recent_actions self) i line;
      flags ← (if completed
               then deque_set (_recent_action_completed self) i true
               else Ok (_recent_action_completed self));
      Ok (mkRenderer (max_actions self) (command_width self)
            lines (_recent_action_ids self) flags
            (action_count self) (_started_counts self)
            (resume_token self) (session_title self))
  | None =>
      '(lines, ids, flags) ←
        (if (max_actions self <=? length (recent_actions self))%nat then
           lines ← popleft (recent_actions self);
           ids ← popleft (_recent_action_ids self);
           flags ← popleft (_recent_action_completed self);
           Ok (lines, ids, flags)
         else Ok (recent_actions self, _recent_action_ids self,
                  _recent_action_completed self));
      Ok (mkRenderer (max_actions self) (command_width self)
            (deque_append (max_actions self) lines line)
            (deque_append (max_actions self) ids action_id)
            (deque_append (max_actions self) flags completed)
            (action_count self) (_started_counts self)
            (resume_token self) (session_title self))
  end.

Section WithTitles.

(** The renderer's bookkeeping never looks inside the text that
    [format_action_title] returns: the formatter is a parameter
    here, and is defined in [RenderTitle] below. *)
Variable format_action_title : Action → option Z → string.

(** The bookkeeping of [note_event] before the line is rendered:
    the new [action_count], the new [_started_counts] and
    [is_update]. *)
Definition count_step (count : Z) (counts : gmap string Z)
    (action_id : string) (phase : ActionPhase)
  : Z * gmap string Z * bool :=
  let '(count, counts, is_update) :=
    if bool_decide (phase = completed) then (count, counts, false)
    else
      let started_count := default 0%Z (counts !! action_id) in
      let is_update :=
        bool_decide (phase = updated) || (0 <? started_count)%Z in
      if (started_count =? 0)%Z then
        ((count + 1)%Z, <[action_id := 1%Z]> counts, is_update)
      else if bool_decide (phase = started) then
        (count, <[action_id := (started_count + 1)%Z]> counts, is_update)
      else
        (count, <[action_id := started_count]> counts, is_update) in
  if bool_decide (phase = completed) then
    let c := default 0%Z (counts !! action_id) in
    if (c <=? 0)%Z then ((count + 1)%Z, counts, is_update)
    else if (c =? 1)%Z then (count, delete action_id counts, is_update)
    else (count, <[action_id := (c - 1)%Z]> counts, is_update)
  else (count, counts, is_update).

Definition render_line (self : ExecProgressRenderer) (action : Action)
    (is_update is_completed : bool) (ok : option bool) : string :=
  let status :=
    if is_update && negb is_completed then STATUS_UPDATE
    else action_status_symbol action is_completed ok in
  let title := format_action_title action (command_width self) in
  let suffix := if is_completed then action_exit_suffix action else "" in
  status +:+ " " +:+ title +:+ suffix.

Definition note_event (self : ExecProgressRenderer) (event : TakopiEvent)
  : result (ExecProgressRenderer * bool) :=
  match event with
  | StartedEvent _ resume title =>
      Ok (mkRenderer (max_actions self) (command_width self)
            (recent_actions self) (_recent_action_ids self)
            (_recent_action_completed self)
            (action_count self) (_started_counts self)
            (Some resume) title, true)
  | ActionEvent action phase ok =>
      if bool_decide (kind action = turn) then Ok (self, false)
      else
        let action_id := default "" (id action) in
        if String.eqb action_id "" then Ok (self, false)
        else
          let is_completed := bool_decide (phase = completed) in
          let '(count, counts, is_update) :=
            count_step (action_count self) (_started_counts self)
              action_id phase in
          let counted :=
            mkRenderer (max_actions self) (command_width self)
              (recent_actions self) (_recent_action_ids self)
              (_recent_action_completed self)
              count counts
              (resume_token self) (session_title self) in
          let line := render_line self action is_update is_completed ok in
          self' ← _append_action counted action_id is_completed line;
          Ok (self', true)
  | CompletedEvent => Ok (self, false)
  end.

(** Feeding a sequence of events to the renderer, in order. *)
Fixpoint note_events (self : ExecProgressRenderer)
    (events : list TakopiEvent) : result ExecProgressRenderer :=
  match events with
  | [] => Ok self
  | ev :: rest =>
      '(self', _) ← note_event self ev;
      note_events self' rest
  end.

End WithTitles.

End Render.

(** ** The command menu ([telegram/bridge.py]) *)

Module Menu.

Definition _MAX_BOT_COMMANDS : nat := 100.

(** One entry of the menu: [{"command": ..., "description": ...}]. *)
Record BotCommand : Type := mkBotCommand {
  command : string;
  description : string
}.

#[global] Instance BotCommand_eq_dec : EqDecision BotCommand.
Proof. solve_decision. Defined.

(** A command plugin as [get_command] returns it; an empty or absent
    [description] is falsy. *)
Record CommandBackend : Type := mkCommandBackend {
  backend_id : string;
  backend_description : option string
}.

(** What [_build_bot_commands] reads from its runtime, in the order the
    calls return it: [available_engine_ids()], [project_aliases()], and
    for each entry point of [list_entrypoints] the outcome of
    [get_command] ([None] when it raised [ConfigError]). *)
Record MenuRuntime : Type := mkMenuRuntime {
  available_engine_ids : list string;
  project_aliases : list string;
  command_backends : list (option CommandBackend)
}.

Definition FILE_COMMAND : BotCommand :=
  mkBotCommand "file" "upload or fetch files".
Definition CANCEL_COMMAND : BotCommand :=
  mkBotCommand "cancel" "cancel run".

(** [commands[-1] = x]. *)
Definition set_last {A : Type} (l : list A) (x : A) : result (list A) :=
  match l with
  | [] => Raise IndexError
  | _ => Ok (<[length l - 1 := x]> l)
  end.

(** [any(cmd["command"] == name for cmd in commands)]. *)
Definition has_command (name : string) (commands : list BotCommand) : bool :=
  existsb (fun c => String.eqb (command c) name) commands.

Section WithIds.

(** [str.lower] and [ids.is_valid_id] are not among the sources. *)
Variable lower : string → string.
Variable is_valid_id : string → bool.

(** The accumulator of the three loops: [commands] and [seen]. *)
Definition Acc : Type := list BotCommand * gset string.

Definition push (acc : Acc) (c : BotCommand) : Acc :=
  (acc.1 ++ [c], {[command c]} ∪ acc.2).

(** What every loop does with an entry that passed its filters. *)
Definition offer (acc : Acc) (c : BotCommand) : Acc :=
  if decide (command c ∈ acc.2) then acc else push acc c.

Definition add_engine (acc : Acc) (engine_id : string) : Acc :=
  let cmd := lower engine_id in
  if decide (cmd ∈ acc.2) then acc
  else push acc (mkBotCommand cmd ("use agent: " +:+ cmd)).

Definition add_project (acc : Acc) (alias : string) : Acc :=
  let cmd := lower alias in
  if decide (cmd ∈ acc.2) then acc
  else if negb (is_valid_id cmd) then acc
  else push acc (mkBotCommand cmd ("work on: " +:+ cmd)).

Definition add_backend (acc : Acc) (loaded : option CommandBackend) : Acc :=
  match loaded with
  | None => acc
  | Some backend =>
      let cmd := lower (backend_id backend) in
      if decide (cmd ∈ acc.2) then acc
      else if negb (is_valid_id cmd) then acc
      else
        let description :=
          if truthy (backend_description backend)
          then default "" (backend_description backend)
          else "command: " +:+ cmd in
        push acc (mkBotCommand cmd description)
  end.

Definition add_file (include_file : bool) (acc : Acc) : Acc :=
  if include_file && negb (bool_decide ("file" ∈ acc.2))
  then push acc FILE_COMMAND else acc.

(** The last append leaves [seen] alone. *)
Definition add_cancel (acc : Acc) : list BotCommand :=
  if bool_decide ("cancel" ∈ acc.2) then acc.1
  else acc.1 ++ [CANCEL_COMMAND].

(** The list before the length check. *)
Definition collect_commands (runtime : MenuRuntime) (include_file : bool)
  : list BotCommand :=
  let acc := foldl add_engine ([], ∅) (available_engine_ids runtime) in
  let acc := foldl add_project acc (project_aliases runtime) in
  let acc := foldl add_backend acc (command_backends runtime) in
  add_cancel (add_file include_file acc).

(** The length check and what follows it. *)
Definition cap_commands (commands : list BotCommand)
  : result (list BotCommand) :=
  if (_MAX_BOT_COMMANDS <? length commands)%nat then
    let commands := take _MAX_BOT_COMMANDS commands in
    if negb (has_command "cancel" commands)
    then set_last commands CANCEL_COMMAND
    else Ok commands
  else Ok commands.

Definition _build_bot_commands (runtime : MenuRuntime) (include_file : bool)
  : result (list BotCommand) :=
  cap_commands (collect_commands runtime include_file).

(** The menu in the words of the specification: the candidates of
    the four sources one after the other, and of those the first
    entry for each command name. *)
Definition engine_entries (runtime : MenuRuntime) : list BotCommand :=
  (fun e => mkBotCommand (lower e) ("use agent: " +:+ lower e))
    <$> available_engine_ids runtime.

Definition project_entries (runtime : MenuRuntime) : list BotCommand :=
  (fun a => mkBotCommand (lower a) ("work on: " +:+ lower a))
    <$> List.filter (fun a => is_valid_id (lower a)) (project_aliases runtime).

Definition backend_entry (backend : CommandBackend) : BotCommand :=
  let cmd := lower (backend_id backend) in
  mkBotCommand cmd
    (if truthy (backend_description backend)
     then default "" (backend_description backend)
     else "command: " +:+ cmd).

Definition plugin_entries (runtime : MenuRuntime) : list BotCommand :=
  backend_entry
    <$> List.filter (fun b => is_valid_id (lower (backend_id b)))
          (omap (fun x => x) (command_backends runtime)).

Definition builtin_entries (include_file : bool) : list BotCommand :=
  (if include_file then [FILE_COMMAND] else []) ++ [CANCEL_COMMAND].

(** Keep the first entry of every command name. *)
Fixpoint first_per_command (seen : gset string) (l : list BotCommand)
  : list BotCommand :=
  match l with
  | [] => []
  | c :: rest =>
      if decide (command c ∈ seen) then first_per_command seen rest
      else c :: first_per_command ({[command c]} ∪ seen) rest
  end.

Definition menu_union (runtime : MenuRuntime) (include_file : bool)
  : list BotCommand :=
  first_per_command ∅
    (engine_entries runtime ++ project_entries runtime
       ++ plugin_entries runtime ++ builtin_entries include_file).

End WithIds.

(** [str.lower] on ASCII text, for concrete runs. *)
Definition ascii_lower_char (c : Ascii.ascii) : Ascii.ascii :=
  let n := Ascii.nat_of_ascii c in
  if ((65 <=? n) && (n <=? 90))%nat then Ascii.ascii_of_nat (n + 32) else c.

Fixpoint ascii_lower (s : string) : string :=
  match s with
  | EmptyString => EmptyString
  | String c rest => String (ascii_lower_char c) (ascii_lower rest)
  end.

(** Identifiers made of [a-z0-9_], 1 to 32 characters, for concrete
    runs. *)
Definition id_char (c : Ascii.ascii) : bool :=
  let n := Ascii.nat_of_ascii c in
  (((97 <=? n) && (n <=? 122)) || ((48 <=? n) && (n <=? 57)) || (n =? 95))%nat.

Fixpoint all_id_chars (s : string) : bool :=
  match s with
  | EmptyString => true
  | String c rest => id_char c && all_id_chars rest
  end.

Definition ascii_valid_id (s : string) : bool :=
  all_id_chars s && (1 <=? String.length s)%nat && (String.length s <=? 32)%nat.

End Menu.

(** ** Topic titles and renaming ([telegram/bridge.py]) *)

Module Topics.

Import Resolver.

Record TopicThreadSnapshot : Type := mkSnapshot {
  snap_chat_id : Z;
  snap_thread_id : Z;
  snap_context : option RunContext;
  topic_title : option string;
  sessions : gmap string ResumeToken;
  created_by_bot : bool
}.

(** The calls that leave the process: a rename sent to the chat
    service and a write to the topic store. *)
Inductive Call : Type :=
  | EditForumTopic (chat_id thread_id : Z) (name : string)
  | StoreSetContext (chat_id thread_id : Z) (context : RunContext)
      (title : option string).

(** The topic store's threads and the calls issued so far. *)
Record World : Type := mkWorld {
  threads : gmap (Z * Z) TopicThreadSnapshot;
  calls : list Call
}.

(** Coroutines over the world, as a state monad. *)
Definition Task (A : Type) : Type := World → A * World.

#[global] Instance Task_ret : MRet Task := λ A a w, (a, w).
#[global] Instance Task_bind : MBind Task := λ A B k m w,
  let '(a, w') := m w in k a w'.

(** Modelled from the spec: [TopicStateStore.get_thread] is in
    [topic_state.py], which is not among the sources.
    "[get_thread(c,t) → Snapshot?]": a read of the stored thread. *)
Definition get_thread (chat_id thread_id : Z)
  : Task (option TopicThreadSnapshot) :=
  λ w, (threads w !! (chat_id, thread_id), w).

(** Modelled from the spec: [TopicStateStore.set_context] is in
    [topic_state.py], which is not among the sources.
    "[set_context(c,t,ctx, topic_title?=, created_by_bot?=)]": the
    thread is created when absent, its context is replaced, and its
    title is replaced when one is passed. *)
Definition set_context (chat_id thread_id : Z) (context : RunContext)
    (title : option string) : Task unit :=
  λ w,
    let old :=
      default (mkSnapshot chat_id thread_id None None ∅ false)
        (threads w !! (chat_id, thread_id)) in
    let new :=
      mkSnapshot (snap_chat_id old) (snap_thread_id old) (Some context)
        (match title with Some t => Some t | None => topic_title old end)
        (sessions old) (created_by_bot old) in
    (tt, mkWorld (<[(chat_id, thread_id) := new]> (threads w))
           (calls w ++ [StoreSetContext chat_id thread_id context title])).

Section WithBot.

(** [runtime.project_alias_for_key] and the answer of the chat
    service to [edit_forum_topic] (truthy when the rename went
    through) are outside the sources. *)
Variable project_alias_for_key : string → string.
Variable edit_accepted : Z → Z → string → bool.

Definition edit_forum_topic (chat_id thread_id : Z) (name : string)
  : Task bool :=
  λ w, (edit_accepted chat_id thread_id name,
        mkWorld (threads w)
          (calls w ++ [EditForumTopic chat_id thread_id name])).

Definition _topic_title (context : RunContext) : string :=
  let project :=
    match project context with
    | Some key => project_alias_for_key key
    | None => ""
    end in
  if truthy (branch context) then
    if negb (String.eqb project "") then
      project +:+ " @" +:+ default "" (branch context)
    else "@" +:+ default "" (branch context)
  else if negb (String.eqb project "") then project else "topic".

Definition _maybe_rename_topic (chat_id thread_id : Z)
    (context : RunContext) (snapshot : option TopicThreadSnapshot)
  : Task unit :=
  let title := _topic_title context in
  snapshot ← match snapshot with
             | None => get_thread chat_id thread_id
             | Some s => mret (Some s)
             end;
  if bool_decide (topic_title <$> snapshot = Some (Some title)) then
    mret tt
  else
    updated ← edit_forum_topic chat_id thread_id title;
    if negb updated then mret tt
    else set_context chat_id thread_id context (Some title).

(** The rename calls among the calls issued. *)
Definition rename_calls (w : World) : list Call :=
  List.filter (λ c, match c with EditForumTopic _ _ _ => true | _ => false end)
    (calls w).

(** Binding a thread to a context, as [/ctx set] and the directive
    path do it: the store is written, then the topic renamed. *)
Definition bind_topic (chat_id thread_id : Z) (context : RunContext)
  : Task unit :=
  _ ← set_context chat_id thread_id context None;
  _maybe_rename_topic chat_id thread_id context None.

End WithBot.

End Topics.

(** ** Concrete configurations *)

Module Demo.

Import Resolver.

(** Two engines and two projects; chat [-42] belongs to [alpha]. *)
Definition codex_entry : RunnerEntry :=
  mkRunnerEntry "codex" (mkRunner "codex") true None.
Definition pi_entry : RunnerEntry :=
  mkRunnerEntry "pi" (mkRunner "pi") true None.

(** A reply that quotes [resume: r1] continues session [r1] of [pi]. *)
Definition demo_resolve_resume (prompt : string) (reply_text : option string)
  : option ResumeToken :=
  if bool_decide (reply_text = Some "resume: r1")
  then Some (mkResumeToken "pi" "r1") else None.

Definition demo_router : AutoRouter :=
  mkAutoRouter [codex_entry; pi_entry] "codex" demo_resolve_resume.

Definition demo_project_for_chat (chat_id : option Z) : option string :=
  if bool_decide (chat_id = Some (-42)%Z) then Some "alpha" else None.

Definition demo_projects : ProjectsConfig :=
  mkProjectsConfig
    (<["alpha" := mkProjectConfig "alpha" None (Some (-42)%Z)]>
       (<["beta" := mkProjectConfig "beta" (Some "pi") None]> ∅))
    None demo_project_for_chat.

Definition demo_runtime : TransportRuntime :=
  mkTransportRuntime demo_router demo_projects.

(** The directive parser on the messages used below: [/codex], [/alpha]
    and [@feat] in front of the prompt. *)
Definition demo_parse_directives (text : string) (engines : list EngineId)
    (pcfg : ProjectsConfig) : result ParsedDirectives :=
  if bool_decide (text = "/codex /alpha @feat fix it") then
    Ok (mkParsedDirectives "fix it" (Some "codex") (Some "alpha") (Some "feat"))
  else if bool_decide (text = "/codex more") then
    Ok (mkParsedDirectives "more" (Some "codex") None None)
  else if bool_decide (text = "/nowhere fix it") then Raise DirectiveError
  else Ok (mkParsedDirectives text None None None).

(** The context-line parser on the reply used below. *)
Definition demo_parse_context_line (reply_text : option string)
    (pcfg : ProjectsConfig) : option RunContext :=
  if bool_decide (reply_text = Some "beta @main")
  then Some (mkRunContext (Some "beta") (Some "main")) else None.

Definition demo_resolve : string → option string → option Z
    → result ResolvedMessage :=
  resolve_message demo_parse_directives demo_parse_context_line demo_runtime.

End Demo.

(** ** The resolver's context sources, in the words of the specification *)

Module ResolverSpec.

Import Resolver.

(** The earliest non-empty source of a list of candidates. *)
Fixpoint earliest (sources : list (option RunContext)) : option RunContext :=
  match sources with
  | [] => None
  | Some c :: _ => Some c
  | None :: rest => earliest rest
  end.

(** A project drawn from a source, joined with the branch directive. *)
Definition with_branch (src : option string) (d : ParsedDirectives)
  : option RunContext :=
  match src with
  | Some p => Some (mkRunContext (Some p) (d_branch d))
  | None => None
  end.

(** The candidates in the order the resolver consults them: the reply
    context line, the project directive, the project of the chat, the
    configured default project, and a branch directive on its own. *)
Definition context_sources (pcfg : ProjectsConfig) (d : ParsedDirectives)
    (reply_ctx : option RunContext) (chat_id : option Z)
  : list (option RunContext) :=
  let chat_project := project_for_chat pcfg chat_id in
  [ reply_ctx;
    with_branch (d_project d) d;
    with_branch (if truthy chat_project then chat_project else None) d;
    with_branch (default_project pcfg) d;
    match d_branch d with
    | Some b => Some (mkRunContext None (Some b))
    | None => None
    end ].

End ResolverSpec.

(** ** The renderer's ring and counter, in the words of the specification *)

Module RenderSpec.

Import Render.

(** "Completed-fail": the exit code in [detail] is an integer other
    than zero. *)
Definition exit_code_fails (action : Action) : bool :=
  match detail action with
  | Some dt =>
      match dt !! "exit_code" with
      | Some v =>
          match as_int v with
          | Some z => negb (z =? 0)%Z
          | None => false
          end
      | None => false
      end
  | None => false
  end.

(** The tie-break for the status of a completed action. *)
Definition completion_symbol (action : Action) (ok : option bool) : string :=
  match ok with
  | Some true => "✓"
  | Some false => "✗"
  | None => if exit_code_fails action then "✗" else "✓"
  end.

(** The three deques describe the same entries and fit the bound. *)
Definition ring_aligned (st : ExecProgressRenderer) : Prop :=
  length (recent_actions st) = length (_recent_action_ids st)
  ∧ length (_recent_action_completed st) = length (_recent_action_ids st)
  ∧ (length (_recent_action_ids st) ≤ max_actions st)%nat.

(** Entry [i] of the ring belongs to [a] and is not completed. *)
Definition open_at (st : ExecProgressRenderer) (i : nat) (a : string) : Prop :=
  _recent_action_ids st !! i = Some a
  ∧ _recent_action_completed st !! i = Some false.

(** At most one entry per action id among those not completed. *)
Definition open_unique (st : ExecProgressRenderer) : Prop :=
  ∀ a i j, open_at st i a → open_at st j a → i = j.

(** "Action ids in the ring are unique". *)
Definition ring_ids_unique (st : ExecProgressRenderer) : Prop :=
  NoDup (_recent_action_ids st).

(** The action id an event is booked under, if it is booked at all:
    turn actions and actions without an id are skipped. *)
Definition counted_id (ev : TakopiEvent) : option string :=
  match ev with
  | ActionEvent action _ _ =>
      if bool_decide (kind action = turn) then None
      else if String.eqb (default "" (id action)) "" then None
      else Some (default "" (id action))
  | _ => None
  end.








Definition act (a : string) (k : ActionKind) : Action :=
  mkAction (Some a) k a None.

End RenderSpec.

(** ** Bookkeeping of the renderer, stated on its own *)

Module RenderBook.

Import Render RenderSpec.

(** A ring the renderer can work on: aligned deques, room for at least
    one entry, one open entry per id at most. *)
Definition ring_ok (st : ExecProgressRenderer) : Prop :=
  ring_aligned st ∧ (1 ≤ max_actions st)%nat ∧ open_unique st.

(** What one event does to [action_count] and [_started_counts]. *)
Definition book (acc : Z * gmap string Z) (ev : TakopiEvent)
  : Z * gmap string Z :=
  match ev with
  | ActionEvent action phase _ =>
      match counted_id ev with
      | Some a => (count_step acc.1 acc.2 a phase).1
      | None => acc
      end
  | _ => acc
  end.


End RenderBook.

(** ** A runtime with a hundred engines *)

Module MenuDemo.

Import Menu.

(** Engines [e0] ... [e99], no projects, no plugins. *)
Definition hundred_engines : MenuRuntime :=
  mkMenuRuntime ((λ n : nat, "e" +:+ pretty n) <$> seq 0 100) [] [].

(** Two engines, a project that shares a name with one of them, a
    project with an invalid name, and one plugin. *)
Definition small_runtime : MenuRuntime :=
  mkMenuRuntime ["Codex"; "pi"] ["codex"; "My Proj"; "docs"]
    [Some (mkCommandBackend "deploy" None); None].

End MenuDemo.

(** ** A topic store with one bound thread *)

Module TopicsDemo.

Import Resolver Topics.

(** Project keys are their own aliases; the chat service accepts every
    rename. *)
Definition demo_alias (key : string) : string := key.
Definition demo_accept (chat_id thread_id : Z) (name : string) : bool := true.

Definition feat_context : RunContext :=
  mkRunContext (Some "alpha") (Some "feat").

(** Thread 7 of chat 10, bound to [alpha @feat] and titled so. *)
Definition bound_world : World :=
  mkWorld
    {[ (10%Z, 7%Z) :=
         mkSnapshot 10 7 (Some feat_context) (Some "alpha @feat") ∅ false ]}
    [].

(** The same store before the thread was ever bound. *)
Definition fresh_world : World := mkWorld ∅ [].

End TopicsDemo.

(** * The rest of the dispatch code *)

(** ** Exceptions that carry a message *)

Inductive raised : Type :=
  | ConfigError (msg : string)
  | ValueError (msg : string)
  | TypeError (msg : string)
  | Exception (msg : string).

Inductive outcome (A : Type) : Type :=
  | Returns (a : A)
  | Raises (e : raised).

Arguments Returns {A} a.
Arguments Raises {A} e.

#[global] Instance outcome_ret : MRet outcome := λ A a, Returns a.

#[global] Instance outcome_bind : MBind outcome := λ A B k m,
  match m with
  | Returns a => k a
  | Raises e => Raises e
  end.

(** ** The other methods of [TransportRuntime] ([transport_runtime.py]) *)

Module Runtime.

Import Resolver.



Definition default_context_for_chat (self : TransportRuntime)
    (chat_id : option Z) : option RunContext :=
  match project_for_chat (_projects self) chat_id with
  | None => None
  | Some project_key => Some (mkRunContext (Some project_key) None)
  end.

(** A value of the [plugins] table: a table of its own, or anything
    else. *)
Inductive plugin_value : Type :=
  | PluginTable (table : gmap string string)
  | PluginScalar (text : string).

(** [plugin_config]; [plugin_configs] is the [_plugin_configs] the
    runtime was built with, [message] the text of the error. *)
Definition plugin_config (plugin_configs : gmap string plugin_value)
    (message : string → string) (plugin_id : string)
  : outcome (gmap string string) :=
  if bool_decide (plugin_configs = ∅) then Returns ∅
  else
    match plugin_configs !! plugin_id with
    | None => Returns ∅
    | Some (PluginTable table) => Returns table
    | Some (PluginScalar _) => Raises (ConfigError (message plugin_id))
    end.


End Runtime.
(** ** Action titles ([render.py]) *)

Module RenderTitle.

Import Resolver Render.

Definition MAX_FILE_CHANGES_INLINE : nat := 3.

Definition FILE_CHANGE_VERB : gmap string string :=
  {[ "add" := "added"; "delete" := "deleted"; "update" := "updated" ]}.

(** [sep.join(parts)]. *)
Fixpoint join (sep : string) (parts : list string) : string :=
  match parts with
  | [] => ""
  | [part] => part
  | part :: rest => part +:+ sep +:+ join sep rest
  end.

Section WithLibraries.

(** Two things are outside the sources: [textwrap.shorten(text,
    width=width, placeholder="…")] of the standard library, and what
    [format_changed_file_path] makes of a path, which depends on
    [pathlib] and on the working directory. *)
Variable textwrap_shorten : string → Z → string.
Variable format_changed_file_path : string → string.

Definition shorten (text : string) (width : option Z) : string :=
  match width with
  | None => text
  | Some width => textwrap_shorten text width
  end.

(** The body of the loop over [changes]: [None] for an entry that is
    skipped. *)
Definition render_change (raw : pyval) : option string :=
  match raw with
  | PDict raw =>
      match raw !! "path" with
      | Some (PStr path) =>
          if String.eqb path "" then None
          else
            let verb :=
              match raw !! "kind" with
              | Some (PStr kind) =>
                  default "updated" (FILE_CHANGE_VERB !! kind)
              | _ => "updated"
              end in
            Some (verb +:+ " " +:+ format_changed_file_path path)
      | _ => None
      end
  | _ => None
  end.

Definition format_file_change_title (action : Action)
    (command_width : option Z) : string :=
  let rendered :=
    match default ∅ (detail action) !! "changes" with
    | Some (PList changes) => omap render_change changes
    | _ => []
    end in
  match rendered with
  | [] => "files: " +:+ shorten (title action) command_width
  | _ :: _ =>
      let rendered :=
        if (MAX_FILE_CHANGES_INLINE <? length rendered)%nat then
          take MAX_FILE_CHANGES_INLINE rendered
            ++ ["…("
                +:+ pretty (length rendered - MAX_FILE_CHANGES_INLINE)%nat
                +:+ " more)"]
        else rendered in
      "files: " +:+ shorten (join ", " rendered) command_width
  end.

Definition format_action_title (action : Action)
    (command_width : option Z) : string :=
  match kind action with
  | command => "`" +:+ shorten (title action) command_width +:+ "`"
  | tool => "tool: " +:+ shorten (title action) command_width
  | web_search => "searched: " +:+ shorten (title action) command_width
  | file_change => format_file_change_title action command_width
  | note | warning => shorten (title action) command_width
  | turn => shorten (title action) command_width
  end.

End WithLibraries.

(** The runs below use titles of one word, shorter than any width
    they are given, which [textwrap.shorten] returns as they are; and
    relative paths without [./], which [format_changed_file_path]
    only puts between backticks. *)
Definition short_word (text : string) (width : Z) : string := text.

Definition quoted_path (path : string) : string := "`" +:+ path +:+ "`".

Definition run_title : Action → option Z → string :=
  format_action_title short_word quoted_path.

End RenderTitle.

(** ** The command-line rendering of events ([render.py]) *)

Module RenderCli.

Import Resolver Render.


Section WithTitles.

Variable format_action_title : Action → option Z → string.


End WithTitles.

End RenderCli.
(** ** Publishing the menu and comparing configurations
    ([telegram/bridge.py]) *)

Module MenuMore.

Import Menu.

(** The requests sent to the chat service. *)
Inductive BotCall : Type :=
  | SetMyCommands (commands : list BotCommand).

Section WithBot.

Variable lower : string → string.
Variable is_valid_id : string → bool.

(** The answer of the chat service to [set_my_commands]: it may
    raise, and its result is tested for truth. *)
Variable set_my_commands : list BotCommand → outcome bool.

(** [_set_command_menu]: the calls made and the log event written. *)
Definition _set_command_menu (runtime : MenuRuntime) (include_file : bool)
  : result (list BotCall * list string) :=
  commands ← _build_bot_commands lower is_valid_id runtime include_file;
  match commands with
  | [] => Ok ([], [])
  | _ =>
      match set_my_commands commands with
      | Raises _ =>
          Ok ([SetMyCommands commands], ["startup.command_menu.failed"])
      | Returns ok =>
          if negb ok
          then Ok ([SetMyCommands commands],
                   ["startup.command_menu.rejected"])
          else Ok ([SetMyCommands commands],
                   ["startup.command_menu.updated"])
      end
  end.

(** The entries offered to the menu, source after source. *)
Definition menu_candidates (runtime : MenuRuntime) (include_file : bool)
  : list BotCommand :=
  engine_entries lower runtime
    ++ project_entries lower is_valid_id runtime
    ++ plugin_entries lower is_valid_id runtime
    ++ builtin_entries include_file.

End WithBot.

Section DiffKeys.

(** The values of a configuration table: any objects that [!=] can
    compare, [none] being Python's [None]. *)
Context {V : Type} `{EqDecision V}.
Variable none : V.

(** [d.get(key)]. *)
Definition dict_get (d : gmap string V) (key : string) : V :=
  default none (d !! key).

Definition str_le (a b : string) : Prop := String.leb a b = true.

#[global] Instance str_le_dec a b : Decision (str_le a b).
Proof. unfold str_le. apply _. Defined.

#[global] Instance str_le_total : Total str_le.
Proof. intros a b. apply String.leb_total. Qed.

(** [_diff_keys]: the keys whose values differ, sorted. *)
Definition _diff_keys (old new : gmap string V) : list string :=
  merge_sort str_le
    (List.filter (λ key, negb (bool_decide (dict_get old key = dict_get new key)))
       (elements (dom old ∪ dom new))).

End DiffKeys.

End MenuMore.
(** ** Topic scope, topic keys and topic contexts ([telegram/bridge.py]) *)

Module TopicScope.

Import Resolver Runtime Topics.

Record TelegramTopicsConfig : Type := mkTopicsConfig {
  enabled : bool;
  scope : string
}.

(** What the topic helpers read of [TelegramBridgeConfig]: the main
    chat, the topics table, the runtime, and the answer of
    [runtime.project_chat_ids()]. *)
Record BridgeConfig : Type := mkBridgeConfig {
  chat_id : Z;
  topics : TelegramTopicsConfig;
  runtime : TransportRuntime;
  project_chat_ids : list Z
}.

(** What they read of an incoming message. *)
Record IncomingMessage : Type := mkIncoming {
  msg_chat_id : Z;
  msg_message_id : Z;
  msg_thread_id : option Z;
  msg_reply_to_message_id : option Z;
  msg_reply_to_text : option string
}.

(** The double quote, for the messages that contain one. *)
Definition dq : string := String (Ascii.ascii_of_nat 34) EmptyString.

Section WithRepr.

(** [repr] of a string, for error messages. *)
Variable repr : string → string.

Definition _resolve_topics_scope (cfg : BridgeConfig)
  : outcome (string * gset Z) :=
  let project_ids : gset Z := list_to_set (project_chat_ids cfg) in
  let resolved :=
    if String.eqb (scope (topics cfg)) "auto"
    then (if bool_decide (project_ids = ∅) then "main" else "projects")
    else scope (topics cfg) in
  if String.eqb resolved "main" then Returns (resolved, {[chat_id cfg]})
  else if String.eqb resolved "projects" then Returns (resolved, project_ids)
  else if String.eqb resolved "all"
  then Returns (resolved, {[chat_id cfg]} ∪ project_ids)
  else Raises (ValueError
                 ("Invalid topics.scope: " +:+ repr (scope (topics cfg)))).

Definition _topics_scope_label (cfg : BridgeConfig) : outcome string :=
  '(resolved, ids) ← _resolve_topics_scope cfg;
  if String.eqb (scope (topics cfg)) "auto"
  then Returns ("auto (" +:+ resolved +:+ ")")
  else Returns resolved.

Definition _topics_chat_project (cfg : BridgeConfig) (chat : Z)
  : option string :=
  match default_context_for_chat (runtime cfg) (Some chat) with
  | Some context => project context
  | None => None
  end.

Definition _topics_chat_allowed (cfg : BridgeConfig) (chat : Z)
  : outcome bool :=
  if negb (enabled (topics cfg)) then Returns false
  else
    '(resolved, scope_chat_ids) ← _resolve_topics_scope cfg;
    Returns (bool_decide (chat ∈ scope_chat_ids)).

Definition _topics_command_error (cfg : BridgeConfig) (chat : Z)
  : outcome (option string) :=
  allowed ← _topics_chat_allowed cfg chat;
  if (allowed : bool) then Returns None
  else
    '(resolved, ids) ← _resolve_topics_scope cfg;
    if String.eqb resolved "main" then
      if String.eqb (scope (topics cfg)) "auto" then
        Returns (Some
          ("topics commands are only available in the main chat (auto scope). "
           +:+ "to use topics in project chats, set `topics.scope = "
           +:+ dq +:+ "projects" +:+ dq +:+ "`."))
      else Returns
             (Some "topics commands are only available in the main chat.")
    else if String.eqb resolved "projects" then
      if String.eqb (scope (topics cfg)) "auto" then
        Returns (Some
          ("topics commands are only available in project chats (auto scope). "
           +:+ "to use topics in the main chat, set `topics.scope = "
           +:+ dq +:+ "main" +:+ dq +:+ "`."))
      else Returns
             (Some "topics commands are only available in project chats.")
    else Returns
           (Some "topics commands are only available in the main or project chats.").

Definition _topic_key (msg : IncomingMessage) (cfg : BridgeConfig)
  : outcome (option (Z * Z)) :=
  if negb (enabled (topics cfg)) then Returns None
  else
    allowed ← _topics_chat_allowed cfg (msg_chat_id msg);
    if negb allowed then Returns None
    else
      match msg_thread_id msg with
      | None => Returns None
      | Some thread => Returns (Some (msg_chat_id msg, thread))
      end.

End WithRepr.

Definition _merge_topic_context (chat_project : option string)
    (bound : option RunContext) : option RunContext :=
  match chat_project with
  | None => bound
  | Some cp =>
      match bound with
      | None => Some (mkRunContext (Some cp) None)
      | Some b =>
          match project b with
          | None => Some (mkRunContext (Some cp) (branch b))
          | Some _ => Some b
          end
      end
  end.

Definition _usage_ctx_set (chat_project : option string) : string :=
  match chat_project with
  | Some _ => "usage: `/ctx set [@branch]`"
  | None => "usage: `/ctx set <project> [@branch]`"
  end.

Definition _usage_topic (chat_project : option string) : string :=
  match chat_project with
  | Some _ => "usage: `/topic @branch`"
  | None => "usage: `/topic <project> @branch`"
  end.

(** [s.startswith("@")] and [s[1:]]. *)
Definition starts_with_at (s : string) : bool :=
  match s with
  | String c _ => String.eqb (String c EmptyString) "@"
  | EmptyString => false
  end.

Definition tail_of (s : string) : string :=
  match s with
  | String _ rest => rest
  | EmptyString => EmptyString
  end.

(** [s or None]. *)
Definition nonempty (s : string) : option string :=
  if String.eqb s "" then None else Some s.

Section WithProjects.

(** [runtime.project_alias_for_key], [runtime.normalize_project_key]
    and [repr] are outside the sources. *)
Variable project_alias_for_key : string → string.
Variable normalize_project_key : string → option string.
Variable repr : string → string.

Definition _format_context (context : option RunContext) : string :=
  match context with
  | None => "none"
  | Some c =>
      match project c with
      | None => "none"
      | Some key =>
          let project := project_alias_for_key key in
          if truthy (branch c)
          then project +:+ " @" +:+ default "" (branch c)
          else project
      end
  end.

(** [_parse_project_branch_args] on the tokens that
    [split_command_args] made of the argument text. *)
Definition _parse_project_branch_args (tokens : list string)
    (require_branch : bool) (chat_project : option string)
  : option RunContext * option string :=
  match tokens with
  | [] =>
      (None, Some (if require_branch then _usage_topic chat_project
                   else _usage_ctx_set chat_project))
  | _ :: _ :: _ :: _ => (None, Some "too many arguments")
  | first :: others =>
      let parsed : option (option string * option string) :=
        if starts_with_at first then Some (None, nonempty (tail_of first))
        else
          match others with
          | second :: _ =>
              if negb (starts_with_at second) then None
              else Some (Some first, nonempty (tail_of second))
          | [] => Some (Some first, None)
          end in
      match parsed with
      | None => (None, Some "branch must be prefixed with @")
      | Some (project_token, branch) =>
          let project_key : option string * option string :=
            match chat_project with
            | Some cp =>
                match project_token with
                | None => (Some cp, None)
                | Some token =>
                    match normalize_project_key token with
                    | None =>
                        (None, Some ("unknown project " +:+ repr token))
                    | Some normalized =>
                        if negb (String.eqb normalized cp) then
                          (None,
                           Some ("project mismatch for this chat; expected "
                                 +:+ repr (project_alias_for_key cp) +:+ "."))
                        else (Some normalized, None)
                    end
                end
            | None =>
                match project_token with
                | None => (None, Some "project is required")
                | Some token =>
                    match normalize_project_key token with
                    | None =>
                        (None, Some ("unknown project " +:+ repr token))
                    | Some key => (Some key, None)
                    end
                end
            end in
          match project_key with
          | (_, Some error) => (None, Some error)
          | (key, None) =>
              if require_branch && negb (truthy branch)
              then (None, Some "branch is required")
              else (Some (mkRunContext key branch), None)
          end
      end
  end.

End WithProjects.

Section WithBot.

Variable project_alias_for_key : string → string.
Variable edit_accepted : Z → Z → string → bool.

(** [_maybe_update_topic_context]; [has_store] tells whether a topic
    store exists. *)
Definition _maybe_update_topic_context (has_store : bool)
    (topic_key : option (Z * Z)) (context : option RunContext)
    (context_source : string) : Task unit :=
  match has_store, topic_key, context with
  | true, Some key, Some ctx =>
      if negb (String.eqb context_source "directives") then mret tt
      else
        _ ← set_context key.1 key.2 ctx None;
        _maybe_rename_topic project_alias_for_key edit_accepted
          key.1 key.2 ctx None
  | _, _, _ => mret tt
  end.

End WithBot.

End TopicScope.
(** ** Cancellation, media groups, backlog and topic validation
    ([telegram/bridge.py]) *)

Module Loop.

Import Resolver TopicScope.

(** A running engine invocation, keyed by its progress message. *)
Record RunningTask : Type := mkRunningTask {
  task_resume : option ResumeToken;
  task_context : option RunContext;
  cancel_requested : bool;
  task_done : bool
}.

Record CallbackQuery : Type := mkCallbackQuery {
  query_chat_id : Z;
  query_message_id : Z;
  callback_query_id : string
}.

(** What leaves the process: a plain reply and an answer to a
    callback query. *)
Inductive Outgoing : Type :=
  | SendPlain (chat_id user_msg_id : Z) (text : string) (thread_id : option Z)
  | AnswerCallbackQuery (callback_query_id : string) (text : string).

(** [running_tasks] and the messages sent so far. *)
Record Bridge : Type := mkBridge {
  running_tasks : gmap (Z * Z) RunningTask;
  sent : list Outgoing
}.

Definition _send_plain (chat user_msg : Z) (text : string)
    (thread : option Z) (b : Bridge) : Bridge :=
  mkBridge (running_tasks b) (sent b ++ [SendPlain chat user_msg text thread]).

(** [running_task.cancel_requested.set()]. *)
Definition request_cancel (key : Z * Z) (task : RunningTask) (b : Bridge)
  : Bridge :=
  mkBridge
    (<[key := mkRunningTask (task_resume task) (task_context task) true
                (task_done task)]> (running_tasks b))
    (sent b).

Definition _handle_cancel (msg : IncomingMessage) (b : Bridge) : Bridge :=
  match msg_reply_to_message_id msg with
  | None =>
      if truthy (msg_reply_to_text msg) then
        _send_plain (msg_chat_id msg) (msg_message_id msg)
          "nothing is currently running for that message."
          (msg_thread_id msg) b
      else
        _send_plain (msg_chat_id msg) (msg_message_id msg)
          "reply to the progress message to cancel."
          (msg_thread_id msg) b
  | Some reply_id =>
      let progress_ref := (msg_chat_id msg, reply_id) in
      match running_tasks b !! progress_ref with
      | None =>
          _send_plain (msg_chat_id msg) (msg_message_id msg)
            "nothing is currently running for that message."
            (msg_thread_id msg) b
      | Some running_task => request_cancel progress_ref running_task b
      end
  end.

Definition _handle_callback_cancel (query : CallbackQuery) (b : Bridge)
  : Bridge :=
  let progress_ref := (query_chat_id query, query_message_id query) in
  match running_tasks b !! progress_ref with
  | None =>
      mkBridge (running_tasks b)
        (sent b ++ [AnswerCallbackQuery (callback_query_id query)
                      "nothing is currently running for that message."])
  | Some running_task =>
      let b' := request_cancel progress_ref running_task b in
      mkBridge (running_tasks b')
        (sent b' ++ [AnswerCallbackQuery (callback_query_id query)
                       "cancelling..."])
  end.

(** The task a [/cancel] message names: the one whose progress
    message it replies to. *)
Definition names (msg : IncomingMessage) (key : Z * Z) : Prop :=
  msg_reply_to_message_id msg = Some key.2 ∧ msg_chat_id msg = key.1.

(** *** Media groups *)

Section MediaGroups.

(** The messages are kept as they come. *)
Context {Message : Type}.

Record _MediaGroupState : Type := mkMediaGroupState {
  messages : list Message;
  token : Z
}.

(** [media_groups: dict[tuple[int, str], _MediaGroupState]]. *)
Abbreviation MediaGroups := (gmap (Z * string) _MediaGroupState).

(** The branch of the main loop for a document that belongs to a
    media group: the new table, and whether a flush task was
    started for the group. *)
Definition media_group_arrival (media_groups : MediaGroups)
    (key : Z * string) (msg : Message) : MediaGroups * bool :=
  match media_groups !! key with
  | None =>
      (<[key := mkMediaGroupState ([] ++ [msg]) (0 + 1)]> media_groups, true)
  | Some state =>
      (<[key := mkMediaGroupState (messages state ++ [msg])
                  (token state + 1)]> media_groups, false)
  end.

Definition arrivals (media_groups : MediaGroups)
    (batch : list ((Z * string) * Message)) : MediaGroups :=
  foldl (λ mg a, (media_group_arrival mg a.1 a.2).1) media_groups batch.

(** How [flush_media_group] ends: it returns without a word, or it
    hands the messages to [_handle_media_group], the group's state
    being deleted by then. *)
Inductive FlushResult : Type :=
  | FlushReturned (media_groups : MediaGroups)
  | FlushHandled (batch : list Message) (media_groups : MediaGroups).

(** [flush_media_group]: [during] lists, sleep after sleep, the
    media-group documents the main loop took in while the task
    slept; [None] when the task is still asleep at the end of
    [during]. *)
Fixpoint flush_media_group (media_groups : MediaGroups) (key : Z * string)
    (during : list (list ((Z * string) * Message))) : option FlushResult :=
  match media_groups !! key with
  | None => Some (FlushReturned media_groups)
  | Some state =>
      let seen := token state in
      match during with
      | [] => None
      | batch :: later =>
          let media_groups := arrivals media_groups batch in
          match media_groups !! key with
          | None => Some (FlushReturned media_groups)
          | Some state =>
              if bool_decide (token state ≠ seen)
              then flush_media_group media_groups key later
              else Some (FlushHandled (messages state)
                           (delete key media_groups))
          end
      end
  end.

(** The messages of a group among those of a batch. *)
Definition of_group (key : Z * string)
    (batch : list ((Z * string) * Message)) : list Message :=
  snd <$> List.filter (λ a, bool_decide (a.1 = key)) batch.

End MediaGroups.

(** *** The backlog *)

(** [_drain_backlog]: [answers] are the answers of [get_updates] in
    turn, [None] for a failed request and otherwise the [update_id]s
    of the updates returned.  The result is the final offset together
    with the offsets asked for; [None] when the answers run out before
    the loop ends. *)
Fixpoint _drain_backlog (answers : list (option (list Z)))
    (offset : option Z) : option (option Z * list (option Z)) :=
  match answers with
  | [] => None
  | updates :: later =>
      match updates with
      | None => Some (offset, [offset])
      | Some [] => Some (offset, [offset])
      | Some (first :: others) =>
          let offset' :=
            Some (List.last others first + 1)%Z in
          match _drain_backlog later offset' with
          | Some (final, asked) => Some (final, offset :: asked)
          | None => None
          end
      end
  end.

(** The offset after some updates: one more than the last
    [update_id], and [offset] when there is none. *)
Definition after (batch : list Z) (offset : option Z) : option Z :=
  match last batch with
  | Some id => Some (id + 1)%Z
  | None => offset
  end.

(** *** Validation of the topics setup *)

(** What [get_chat] and [get_chat_member] tell: the type of the chat
    and whether [is_forum] is [True]; the status of the member and
    whether [can_manage_topics] is [True]. *)
Record ChatInfo : Type := mkChatInfo {
  chat_type : option string;
  is_forum : bool
}.

Record MemberInfo : Type := mkMemberInfo {
  member_status : option string;
  can_manage_topics : bool
}.

(** The order in which [for chat_id in chat_ids] visits a [frozenset]
    is not fixed by the sources: any order that visits each member
    once. *)
Record SetOrder : Type := mkSetOrder {
  iterate : gset Z → list Z;
  iterate_once : ∀ chats, iterate chats ≡ₚ elements chats
}.

Definition elements_order : SetOrder :=
  mkSetOrder elements (λ chats, reflexivity (elements chats)).

Section Validation.

Variable repr : string → string.

(** The order of iteration over the chats of the scope. *)
Variable order : SetOrder.

(** The chat service: the bot's id ([None] when [get_me] does not
    yield an integer id), [get_chat] and [get_chat_member] ([None]
    for an answer that is not a table). *)
Variable get_me : option Z.
Variable get_chat : Z → option ChatInfo.
Variable get_chat_member : Z → Z → option MemberInfo.

Definition in_parens (chat : Z) : string := "(chat_id=" +:+ pretty chat +:+ ")".

(** The body of the loop over the chats of the scope. *)
Definition validate_chat (bot_id chat : Z) : outcome unit :=
  match get_chat chat with
  | None =>
      Raises (ConfigError
        ("failed to fetch chat info for topics validation ("
         +:+ pretty chat +:+ ")."))
  | Some info =>
      if negb (bool_decide (chat_type info = Some "supergroup")) then
        Raises (ConfigError
          ("topics enabled but chat is not a supergroup "
           +:+ in_parens chat +:+ "; convert the group and enable topics."))
      else if negb (is_forum info) then
        Raises (ConfigError
          ("topics enabled but chat does not have topics enabled "
           +:+ in_parens chat +:+ "; turn on topics in group settings."))
      else
        match get_chat_member chat bot_id with
        | None =>
            Raises (ConfigError
              ("failed to fetch bot permissions "
               +:+ in_parens chat
               +:+ "; promote the bot to admin with manage topics."))
        | Some member =>
            if bool_decide (member_status member = Some "creator")
            then Returns tt
            else if negb (bool_decide
                            (member_status member = Some "administrator"))
            then Raises (ConfigError
              ("topics enabled but bot is not an admin "
               +:+ in_parens chat +:+ "; promote it and grant manage topics."))
            else if negb (can_manage_topics member)
            then Raises (ConfigError
              ("topics enabled but bot lacks manage topics permission "
               +:+ in_parens chat +:+ "; grant can_manage_topics."))
            else Returns tt
        end
  end.

Fixpoint validate_chats (bot_id : Z) (chats : list Z) : outcome unit :=
  match chats with
  | [] => Returns tt
  | chat :: later =>
      _ ← validate_chat bot_id chat;
      validate_chats bot_id later
  end.

(** [_validate_topics_setup]; the chats of the scope are visited in
    the order [order] lists them. *)
Definition _validate_topics_setup (cfg : BridgeConfig) : outcome unit :=
  if negb (enabled (topics cfg)) then Returns tt
  else
    match get_me with
    | None =>
        Raises (ConfigError
                  "failed to fetch bot id for topics validation.")
    | Some bot_id =>
        '(resolved, chat_ids) ← _resolve_topics_scope repr cfg;
        if String.eqb resolved "projects" && bool_decide (chat_ids = ∅)
        then Raises (ConfigError
          ("topics enabled but no project chats are configured; "
           +:+ "set projects.<alias>.chat_id for forum chats or use scope="
           +:+ dq +:+ "main" +:+ dq +:+ "."))
        else validate_chats bot_id (iterate order chat_ids)
    end.

(** A chat in which topics can be managed by the bot. *)
Definition chat_ready (bot_id chat : Z) : Prop :=
  ∃ info member,
    get_chat chat = Some info
    ∧ chat_type info = Some "supergroup"
    ∧ is_forum info = true
    ∧ get_chat_member chat bot_id = Some member
    ∧ (member_status member = Some "creator"
       ∨ (member_status member = Some "administrator"
          ∧ can_manage_topics member = true)).

End Validation.

End Loop.
(** ** A bridge with one project chat and one running task *)

Module BridgeDemo.

Import Resolver Render RenderSpec TopicScope Loop Demo.

(** [repr] of a string that needs no escapes. *)
Definition demo_repr (s : string) : string := "'" +:+ s +:+ "'".

(** Main chat [1]; topics under the [auto] scope; chat [-42] is the
    chat of project [alpha]. *)
Definition demo_cfg : BridgeConfig :=
  mkBridgeConfig 1 (mkTopicsConfig true "auto") demo_runtime [(-42)%Z].

(** The same bridge with topics in the main chat only. *)
Definition main_cfg : BridgeConfig :=
  mkBridgeConfig 1 (mkTopicsConfig true "main") demo_runtime [(-42)%Z].

(** The project chat is a forum supergroup, every other chat is a
    private chat; the bot is an administrator who may manage topics. *)
Definition demo_get_chat (chat : Z) : option ChatInfo :=
  if bool_decide (chat = (-42)%Z)
  then Some (mkChatInfo (Some "supergroup") true)
  else Some (mkChatInfo (Some "private") false).

Definition demo_get_chat_member (chat bot_id : Z) : option MemberInfo :=
  Some (mkMemberInfo (Some "administrator") true).

(** A message in thread 7 of the project chat. *)
Definition thread_message : IncomingMessage :=
  mkIncoming (-42) 5 (Some 7%Z) None None.

(** One engine run, whose progress message is message 99 of chat 10;
    a [/cancel] reply to it and a press of its cancel button. *)
Definition one_running : Bridge :=
  mkBridge {[ (10%Z, 99%Z) := mkRunningTask None None false false ]} [].

Definition cancel_reply : IncomingMessage :=
  mkIncoming 10 100 None (Some 99%Z) None.

Definition cancel_press : CallbackQuery := mkCallbackQuery 10 99 "cb1".

(** An album in chat 10 of which the first document has arrived, and
    what arrives next: two sleeps that see documents of the album, and
    one that sees only a document of another album. *)
Definition album : Z * string := (10%Z, "album").

Definition album_started : gmap (Z * string) (@_MediaGroupState string) :=
  {[ album := {| messages := ["doc1"]; token := 1 |} ]}.

Definition album_grows : list (list ((Z * string) * string)) :=
  [ [ (album, "doc2") ];
    [ ((11%Z, "other"), "x1"); (album, "doc3") ] ].

Definition album_quiet : list ((Z * string) * string) :=
  [ ((11%Z, "other"), "x2") ].

(** A turn action: the renderer does not book it. *)
Definition turn_event : TakopiEvent :=
  ActionEvent (mkAction (Some "t1") turn "turn" None) started None.

(** Two actions start; the first one completes. *)
Definition short_run : list TakopiEvent :=
  [ ActionEvent (act "a1" command) started None;
    ActionEvent (act "a2" tool) started None;
    ActionEvent (act "a1" command) completed (Some true) ].

End BridgeDemo.
(** * Properties *)

(** ** Resolver *)

Section ResolverFacts.

Import Resolver ResolverSpec.

Variable parse_directives :
  string → list EngineId → ProjectsConfig → result ParsedDirectives.
Variable parse_context_line :
  option string → ProjectsConfig → option RunContext.

(** The resolver raises exactly when the directive parser does. *)
Lemma resolve_message_ok self text reply_text chat_id d :
  parse_directives text (engine_ids (_router self)) (_projects self) = Ok d →
  ∃ m, resolve_message parse_directives parse_context_line
         self text reply_text chat_id = Ok m
    ∧ prompt m = d_prompt d.
Proof.
  intros Hd. unfold resolve_message. rewrite Hd. cbn.
  destruct (resolve_resume _ _ _); [eauto|].
  destruct (parse_context_line _ _); eauto.
Qed.

(** With a resume token the result is built from the reply context or
    the chat's project. *)
Lemma resolve_message_resume self text reply_text chat_id d tok :
  parse_directives text (engine_ids (_router self)) (_projects self) = Ok d →
  resolve_resume (_router self) (d_prompt d) reply_text = Some tok →
  resolve_message parse_directives parse_context_line
    self text reply_text chat_id =
    Ok (mkResolvedMessage (d_prompt d) (Some tok) None
          (match parse_context_line reply_text (_projects self),
                 project_for_chat (_projects self) chat_id with
           | None, Some cp => Some (mkRunContext (Some cp) None)
           | rc, _ => rc
           end)).
Proof.
  intros Hd Hr. unfold resolve_message. rewrite Hd. cbn. rewrite Hr.
  by destruct (parse_context_line reply_text (_projects self)),
    (project_for_chat (_projects self) chat_id).
Qed.

(** C1 (as the code has it): when no resume token is detected, the
    context returned by [resolve_message] is the earliest non-empty
    source in the order reply context line, project directive, project
    of the chat, configured default project, bare branch directive; a
    reply context line is returned as it is, whatever the directives
    say, and there is no topic binding among the sources. *)
Theorem resolve_message_context_precedence self text reply_text chat_id d :
  parse_directives text (engine_ids (_router self)) (_projects self) = Ok d →
  resolve_resume (_router self) (d_prompt d) reply_text = None →
  ∃ m, resolve_message parse_directives parse_context_line
         self text reply_text chat_id = Ok m
    ∧ resume_token m = None
    ∧ context m =
        earliest (context_sources (_projects self) d
                    (parse_context_line reply_text (_projects self)) chat_id)
    ∧ (∀ rc, parse_context_line reply_text (_projects self) = Some rc →
             context m = Some rc).
Proof.
  intros Hd Hr. unfold resolve_message. rewrite Hd. cbn. rewrite Hr.
  destruct (parse_context_line reply_text (_projects self)) as [rc|] eqn:Hrc.
  { eexists. split; [done|]. cbn. split_and!; [done|done|]. by intros ? [= ->]. }
  eexists. split; [done|]. cbn. split_and!; [done| |done].
  unfold py_or.
  destruct (d_project d) as [p|]; cbn; [done|].
  destruct (truthy (project_for_chat (_projects self) chat_id)) eqn:Ht.
  { destruct (project_for_chat (_projects self) chat_id); [done|discriminate]. }
  cbn. destruct (default_project (_projects self)); cbn; [done|].
  by destruct (d_branch d).
Qed.

(** C3: when a resume token is detected, the resolved message carries
    it with no engine override, and [resolve_runner] on that token
    routes by the token's engine alone: whatever override is passed,
    the result is the router's entry for the owning engine, copied
    field by field (engine, runner, availability and issue of an entry
    registered for the token's engine), which is returned whenever the
    router has one; when it has none, the router's error is raised. *)
Theorem resume_token_pins_engine self text reply_text chat_id d tok :
  parse_directives text (engine_ids (_router self)) (_projects self) = Ok d →
  resolve_resume (_router self) (d_prompt d) reply_text = Some tok →
  ∃ m, resolve_message parse_directives parse_context_line
         self text reply_text chat_id = Ok m
    ∧ resume_token m = Some tok
    ∧ engine_override m = None
    ∧ (∀ eo, resolve_runner self (resume_token m) eo =
             resolve_runner self (Some tok) (engine_override m))
    ∧ (∀ eo r, resolve_runner self (resume_token m) eo = Ok r →
               rr_engine r = engine tok)
    ∧ (∀ eo, engine tok ∈ engine_ids (_router self) →
             ∃ r, resolve_runner self (resume_token m) eo = Ok r)
    ∧ (∀ eo r, resolve_runner self (resume_token m) eo = Ok r →
         ∃ entry, entry_for (_router self) tok = Ok entry
           ∧ entry ∈ entries (_router self)
           ∧ re_engine entry = engine tok
           ∧ r = mkResolvedRunner (re_engine entry) (re_runner entry)
                   (re_available entry) (re_issue entry))
    ∧ (∀ eo e, entry_for (_router self) tok = Raise e →
               resolve_runner self (resume_token m) eo = Raise e).
Proof.
  intros Hd Hr. eexists. split; [by apply resolve_message_resume|]. cbn.
  split_and!; try done.
  - intros eo r. unfold resolve_runner, entry_for, entry_for_engine. cbn.
    destruct (List.find _ _) as [en|] eqn:Hf; cbn; [|done].
    intros [= <-]. cbn. apply find_some in Hf as [_ He].
    by apply String.eqb_eq in He.
  - intros eo Hin. unfold resolve_runner, entry_for, entry_for_engine. cbn.
    destruct (List.find _ _) as [en|] eqn:Hf; cbn; [eauto|].
    exfalso. unfold engine_ids in Hin.
    apply list_elem_of_fmap in Hin as (en & Hen & Hin).
    apply list_elem_of_In in Hin.
    eapply find_none in Hf; [|done]. cbn in Hf.
    rewrite Hen in Hf. by rewrite String.eqb_refl in Hf.
  - intros eo r. unfold resolve_runner.
    destruct (entry_for (_router self) tok) as [entry|e] eqn:Hentry;
      cbn; [|done].
    intros [= <-]. exists entry. split; [done|].
    unfold entry_for, entry_for_engine in Hentry. cbn in Hentry.
    destruct (List.find _ _) as [en|] eqn:Hf; [|done].
    injection Hentry as ->. apply find_some in Hf as [Hin He].
    apply String.eqb_eq in He. split; [|done].
    by apply list_elem_of_In.
  - intros eo e He. unfold resolve_runner. by rewrite He.
Qed.

(** C5: a resolved message that carries a resume token and comes from a
    reply without a context line has the chat's project with no branch
    as its context, or none at all; and with a resume token any branch
    in the returned context is the branch of the reply context line. *)
Theorem resume_context_never_invents_branch self text reply_text chat_id d tok :
  parse_directives text (engine_ids (_router self)) (_projects self) = Ok d →
  resolve_resume (_router self) (d_prompt d) reply_text = Some tok →
  ∃ m, resolve_message parse_directives parse_context_line
         self text reply_text chat_id = Ok m
    ∧ resume_token m = Some tok
    ∧ (parse_context_line reply_text (_projects self) = None →
         match project_for_chat (_projects self) chat_id with
         | Some cp => context m = Some (mkRunContext (Some cp) None)
         | None => context m = None
         end)
    ∧ (∀ c b, context m = Some c → branch c = Some b →
         ∃ rc, parse_context_line reply_text (_projects self) = Some rc
             ∧ branch rc = Some b).
Proof.
  intros Hd Hr. eexists. split; [by apply resolve_message_resume|]. cbn.
  split_and!; [done| |].
  - intros ->. by destruct (project_for_chat (_projects self) chat_id).
  - intros c b.
    destruct (parse_context_line reply_text (_projects self)) as [rc|],
             (project_for_chat (_projects self) chat_id) as [cp|];
      intros [= <-]; cbn; eauto; done.
Qed.

End ResolverFacts.

(** Concrete runs of the resolver. *)

Section ResolverRuns.

Import Resolver ResolverSpec Demo.

(** A message with [/alpha @feat] sent in reply to a progress message
    headed [beta @main], no resume line in sight: the resolver returns
    the context of the reply, [beta @main], not the one of the
    directives, [alpha @feat]. *)
Lemma reply_context_beats_directives :
  demo_parse_directives "/codex /alpha @feat fix it"
      (engine_ids demo_router) demo_projects
    = Ok (mkParsedDirectives "fix it" (Some "codex") (Some "alpha") (Some "feat"))
  ∧ demo_parse_context_line (Some "beta @main") demo_projects
    = Some (mkRunContext (Some "beta") (Some "main"))
  ∧ resolve_resume demo_router "fix it" (Some "beta @main") = None
  ∧ demo_resolve "/codex /alpha @feat fix it" (Some "beta @main") None
    = Ok (mkResolvedMessage "fix it" None (Some "pi")
            (Some (mkRunContext (Some "beta") (Some "main"))))
  ∧ Some (mkRunContext (Some "beta") (Some "main"))
    ≠ Some (mkRunContext (Some "alpha") (Some "feat")).
Proof. split_and!; [vm_compute; reflexivity..|discriminate]. Qed.

Lemma resolve_message_context_precedence_witness :
  demo_parse_directives "/codex /alpha @feat fix it"
      (engine_ids (_router demo_runtime)) (_projects demo_runtime)
    = Ok (mkParsedDirectives "fix it" (Some "codex") (Some "alpha") (Some "feat"))
  ∧ resolve_resume (_router demo_runtime) "fix it" None = None
  ∧ ∃ m, demo_resolve "/codex /alpha @feat fix it" None None = Ok m
      ∧ resume_token m = None
      ∧ context m =
          earliest (context_sources (_projects demo_runtime)
                      (mkParsedDirectives "fix it" (Some "codex") (Some "alpha")
                         (Some "feat"))
                      (demo_parse_context_line None (_projects demo_runtime))
                      None)
      ∧ (∀ rc, demo_parse_context_line None (_projects demo_runtime) = Some rc →
               context m = Some rc).
Proof.
  split; [reflexivity|]. split; [reflexivity|].
  apply (resolve_message_context_precedence demo_parse_directives
           demo_parse_context_line demo_runtime
           "/codex /alpha @feat fix it" None None
           (mkParsedDirectives "fix it" (Some "codex") (Some "alpha")
              (Some "feat")));
    reflexivity.
Defined.

Lemma resume_token_pins_engine_witness :
  demo_parse_directives "/codex more"
      (engine_ids (_router demo_runtime)) (_projects demo_runtime)
    = Ok (mkParsedDirectives "more" (Some "codex") None None)
  ∧ resolve_resume (_router demo_runtime) "more" (Some "resume: r1")
    = Some (mkResumeToken "pi" "r1")
  ∧ ∃ m, demo_resolve "/codex more" (Some "resume: r1") None = Ok m
      ∧ resume_token m = Some (mkResumeToken "pi" "r1")
      ∧ engine_override m = None
      ∧ (∀ eo, resolve_runner demo_runtime (resume_token m) eo =
               resolve_runner demo_runtime (Some (mkResumeToken "pi" "r1"))
                 (engine_override m))
      ∧ (∀ eo r, resolve_runner demo_runtime (resume_token m) eo = Ok r →
                 rr_engine r = engine (mkResumeToken "pi" "r1"))
      ∧ (∀ eo, engine (mkResumeToken "pi" "r1")
                 ∈ engine_ids (_router demo_runtime) →
               ∃ r, resolve_runner demo_runtime (resume_token m) eo = Ok r)
      ∧ (∀ eo r, resolve_runner demo_runtime (resume_token m) eo = Ok r →
           ∃ entry,
             entry_for (_router demo_runtime) (mkResumeToken "pi" "r1")
               = Ok entry
             ∧ entry ∈ entries (_router demo_runtime)
             ∧ re_engine entry = engine (mkResumeToken "pi" "r1")
             ∧ r = mkResolvedRunner (re_engine entry) (re_runner entry)
                     (re_available entry) (re_issue entry))
      ∧ (∀ eo e,
           entry_for (_router demo_runtime) (mkResumeToken "pi" "r1")
             = Raise e →
           resolve_runner demo_runtime (resume_token m) eo = Raise e).
Proof.
  split; [reflexivity|]. split; [reflexivity|].
  apply (resume_token_pins_engine demo_parse_directives
           demo_parse_context_line demo_runtime
           "/codex more" (Some "resume: r1") None
           (mkParsedDirectives "more" (Some "codex") None None)
           (mkResumeToken "pi" "r1"));
    reflexivity.
Defined.

(** The run of the witness: the override [codex] of the text is
    dropped and the runner is the entry registered for [pi]. *)
Example resumed_run_uses_owning_entry :
  (m ← demo_resolve "/codex more" (Some "resume: r1") None;
   resolve_runner demo_runtime (resume_token m) (Some "codex"))
  = Ok (mkResolvedRunner "pi" (mkRunner "pi") true None).
Proof. reflexivity. Qed.

Lemma resume_context_never_invents_branch_witness :
  demo_parse_directives "more"
      (engine_ids (_router demo_runtime)) (_projects demo_runtime)
    = Ok (mkParsedDirectives "more" None None None)
  ∧ resolve_resume (_router demo_runtime) "more" (Some "resume: r1")
    = Some (mkResumeToken "pi" "r1")
  ∧ ∃ m, demo_resolve "more" (Some "resume: r1") (Some (-42)%Z) = Ok m
      ∧ resume_token m = Some (mkResumeToken "pi" "r1")
      ∧ (demo_parse_context_line (Some "resume: r1") (_projects demo_runtime)
           = None →
         match project_for_chat (_projects demo_runtime) (Some (-42)%Z) with
         | Some cp => context m = Some (mkRunContext (Some cp) None)
         | None => context m = None
         end)
      ∧ (∀ c b, context m = Some c → branch c = Some b →
           ∃ rc, demo_parse_context_line (Some "resume: r1")
                   (_projects demo_runtime) = Some rc
               ∧ branch rc = Some b).
Proof.
  split; [reflexivity|]. split; [reflexivity|].
  apply (resume_context_never_invents_branch demo_parse_directives
           demo_parse_context_line demo_runtime
           "more" (Some "resume: r1") (Some (-42)%Z)
           (mkParsedDirectives "more" None None None)
           (mkResumeToken "pi" "r1"));
    reflexivity.
Defined.

(** A plain message in the chat of a project runs in that project
    (the case of [test_resolve_message_defaults_to_chat_project]). *)
Example chat_project_is_the_default :
  demo_resolve "hello" None (Some (-42)%Z)
  = Ok (mkResolvedMessage "hello" None None
          (Some (mkRunContext (Some "alpha") None))).
Proof. vm_compute. reflexivity. Qed.

(** A directive for a project nobody configured is an error. *)
Example unknown_project_raises :
  demo_resolve "/nowhere fix it" None None = Raise DirectiveError.
Proof. vm_compute. reflexivity. Qed.

End ResolverRuns.

(** ** Progress renderer: status symbols *)

Section RenderFacts.

Import Resolver Render RenderSpec.

Variable format_action_title : Action → option Z → string.

Lemma nonzero_exit_fails action :
  exit_code_fails action = bool_decide (is_Some (nonzero_exit action)).
Proof.
  unfold exit_code_fails, nonzero_exit, exit_code.
  destruct (detail action) as [dt|]; cbn; [|by rewrite lookup_empty].
  destruct (dt !! "exit_code") as [v|]; [|done].
  destruct (as_int v) as [z|]; [|done].
  destruct (Z.eqb_spec z 0) as [->|Hz]; cbn.
  - by rewrite bool_decide_eq_false_2.
  - by rewrite (bool_decide_eq_true_2 (z ≠ 0%Z)).
Qed.

(** C8: the status symbol of a completed action follows the tie-break
    of the specification: an explicit [ok] decides; without it an
    integer exit code other than zero means failure, and anything else
    success.  [phase_status_and_suffix] and the line noted by the
    renderer use the same symbol. *)
Theorem completed_status_tie_break action ok self :
  action_status_symbol action true ok = completion_symbol action ok
  ∧ (phase_status_and_suffix action completed ok).1
    = completion_symbol action ok
  ∧ render_line format_action_title self action false true ok
    = completion_symbol action ok +:+ " "
        +:+ format_action_title action (command_width self)
        +:+ action_exit_suffix action.
Proof.
  assert (action_status_symbol action true ok = completion_symbol action ok)
    as Hsym.
  { unfold action_status_symbol, completion_symbol. cbn.
    destruct ok as [[]|]; [done..|].
    rewrite nonzero_exit_fails.
    destruct (nonzero_exit action); by cbn. }
  split_and!; [done|done|].
  unfold render_line. by rewrite Hsym.
Qed.
End RenderFacts.

Section StatusRuns.

Import Render RenderSpec RenderTitle.

(** A command that exited with 2 and carries no [ok] flag. *)
Example failed_command_line :
  render_line run_title (new 5 None)
    (mkAction (Some "c1") command "make" (Some {[ "exit_code" := PInt 2 ]}))
    false true None
  = "✗ `make` (exit 2)".
Proof. vm_compute. reflexivity. Qed.

(** An explicit [ok] overrides the exit code; the suffix still shows it. *)
Example ok_flag_wins :
  phase_status_and_suffix
    (mkAction (Some "c1") command "make" (Some {[ "exit_code" := PInt (-1) ]}))
    completed (Some true)
  = ("✓", " (exit -1)").
Proof. vm_compute. reflexivity. Qed.

(** An exit code that is not an integer does not count as a failure. *)
Example text_exit_code_is_ok :
  action_status_symbol
    (mkAction (Some "c1") command "make" (Some {[ "exit_code" := PStr "1" ]}))
    true None
  = "✓".
Proof. vm_compute. reflexivity. Qed.

End StatusRuns.

(** ** Progress renderer: the ring of recent actions *)

Section RingFacts.

Import Resolver Render RenderSpec RenderBook.

Arguments deque_set : simpl never.
Arguments deque_append : simpl never.

Lemma deque_set_ok {A} (d : list A) i x :
  (i < length d)%nat → deque_set d i x = Ok (<[i:=x]> d).
Proof.
  intros Hi. unfold deque_set.
  by assert ((i <? length d)%nat = true) as -> by (by apply Nat.ltb_lt).
Qed.

Lemma deque_append_room {A} mx (d : list A) x :
  (length d < mx)%nat → deque_append mx d x = d ++ [x].
Proof.
  intros Hd. unfold deque_append.
  assert ((mx =? 0)%nat = false) as -> by (apply Nat.eqb_neq; lia).
  by assert ((mx <=? length d)%nat = false) as -> by (apply Nat.leb_gt; lia).
Qed.

Lemma find_open_spec (ids : list string) (flags : list bool) a n :
  length flags = length ids → (n ≤ length ids)%nat →
  ∃ r, find_open ids flags a n = Ok r ∧
    match r with
    | Some j =>
        (j < n)%nat ∧ ids !! j = Some a ∧ flags !! j = Some false
    | None =>
        ∀ k, (k < n)%nat → ¬ (ids !! k = Some a ∧ flags !! k = Some false)
    end.
Proof.
  intros Hlen. induction n as [|n IH]; intros Hn.
  { exists None. split; [done|]. intros k Hk. lia. }
  destruct (lookup_lt_is_Some_2 ids n) as [x Hx]; [lia|].
  destruct (lookup_lt_is_Some_2 flags n) as [c Hc]; [lia|].
  destruct IH as (r & Hr & Hspec); [lia|].
  cbn. unfold deque_get. rewrite Hx. cbn.
  destruct (String.eqb_spec x a) as [->|Hne].
  - rewrite Hc. cbn. destruct c; cbn.
    + exists r. split; [done|]. destruct r as [j|].
      * destruct Hspec as (? & ? & ?). split_and!; [lia|done..].
      * intros k Hk [Hk1 Hk2].
        destruct (decide (k = n)) as [->|]; [congruence|].
        apply (Hspec k); [lia|done].
    + exists (Some n). split; [done|]. split_and!; [lia|done..].
  - exists r. split; [done|]. destruct r as [j|].
    + destruct Hspec as (? & ? & ?). split_and!; [lia|done..].
    + intros k Hk [Hk1 Hk2].
      destruct (decide (k = n)) as [->|]; [congruence|].
      apply (Hspec k); [lia|done].
Qed.

(** Appending an entry for [a] behind a suffix of a ring without open
    entry for [a] keeps open entries unique. *)
Lemma open_unique_snoc (ids : list string) (flags : list bool) a c k :
  length flags = length ids →
  (∀ b i j, ids !! i = Some b → flags !! i = Some false →
            ids !! j = Some b → flags !! j = Some false → i = j) →
  (∀ i, ¬ (ids !! i = Some a ∧ flags !! i = Some false)) →
  ∀ b i j,
    (drop k ids ++ [a]) !! i = Some b → (drop k flags ++ [c]) !! i = Some false →
    (drop k ids ++ [a]) !! j = Some b → (drop k flags ++ [c]) !! j = Some false →
    i = j.
Proof.
  intros Hlen Huniq Hnone b i j Hi Hfi Hj Hfj.
  assert (length (drop k flags) = length (drop k ids)) as Hd
    by (rewrite !length_drop; lia).
  apply lookup_app_Some in Hi as [Hi|[Hi1 Hi2]];
    apply lookup_app_Some in Hfi as [Hfi|[Hfi1 Hfi2]];
    apply lookup_app_Some in Hj as [Hj|[Hj1 Hj2]];
    apply lookup_app_Some in Hfj as [Hfj|[Hfj1 Hfj2]];
    try (apply lookup_lt_Some in Hi; lia);
    try (apply lookup_lt_Some in Hj; lia);
    try (apply lookup_lt_Some in Hfi; lia);
    try (apply lookup_lt_Some in Hfj; lia).
  - rewrite lookup_drop in Hi. rewrite lookup_drop in Hfi.
    rewrite lookup_drop in Hj. rewrite lookup_drop in Hfj.
    pose proof (Huniq _ _ _ Hi Hfi Hj Hfj). lia.
  - rewrite lookup_drop in Hi. rewrite lookup_drop in Hfi.
    apply list_lookup_singleton_Some in Hj2 as [_ <-].
    exfalso. by apply (Hnone (k + i)%nat).
  - rewrite lookup_drop in Hj. rewrite lookup_drop in Hfj.
    apply list_lookup_singleton_Some in Hi2 as [_ <-].
    exfalso. by apply (Hnone (k + j)%nat).
  - apply list_lookup_singleton_Some in Hi2 as [? _].
    apply list_lookup_singleton_Some in Hj2 as [? _]. lia.
Qed.

Lemma append_action_ok st a c line :
  ring_ok st →
  ∃ st', _append_action st a c line = Ok st'
    ∧ ring_ok st'
    ∧ max_actions st' = max_actions st
    ∧ command_width st' = command_width st
    ∧ action_count st' = action_count st
    ∧ _started_counts st' = _started_counts st
    ∧ resume_token st' = resume_token st
    ∧ session_title st' = session_title st
    ∧ (∀ i, open_at st i a →
         _recent_action_ids st' = _recent_action_ids st
         ∧ recent_actions st' = <[i:=line]> (recent_actions st)
         ∧ _recent_action_completed st' =
             if c then <[i:=true]> (_recent_action_completed st)
             else _recent_action_completed st)
    ∧ ((∀ i, ¬ open_at st i a) →
         ∃ k, _recent_action_ids st' = drop k (_recent_action_ids st) ++ [a]
            ∧ recent_actions st' = drop k (recent_actions st) ++ [line]
            ∧ _recent_action_completed st' =
                drop k (_recent_action_completed st) ++ [c]).
Proof.
  destruct st as [mx cw lines ids flags ac sc rt ttl].
  unfold ring_ok, ring_aligned, open_unique, open_at, _append_action. cbn.
  intros ((Hl1 & Hl2 & Hmax) & Hpos & Huniq).
  destruct (find_open_spec ids flags a (length ids)) as (r & -> & Hr);
    [done|lia|]. cbn.
  destruct r as [j|].
  - destruct Hr as (Hj & Hida & Hfl).
    rewrite !deque_set_ok by lia. cbn.
    assert ((if c then Ok (<[j:=true]> flags) else Ok flags)
            = Ok (if c then <[j:=true]> flags else flags)) as ->
      by (by destruct c).
    cbn. eexists. split; [done|]. cbn.
    split_and!; try done.
    + rewrite length_insert. lia.
    + destruct c; [rewrite length_insert|]; lia.
    + intros b i1 i2 [Hb1 Hf1] [Hb2 Hf2].
      apply (Huniq b); split; try done.
      * destruct c; [|done].
        destruct (decide (i1 = j)) as [->|];
          [rewrite list_lookup_insert_eq in Hf1 by lia; done|].
        by rewrite list_lookup_insert_ne in Hf1.
      * destruct c; [|done].
        destruct (decide (i2 = j)) as [->|];
          [rewrite list_lookup_insert_eq in Hf2 by lia; done|].
        by rewrite list_lookup_insert_ne in Hf2.
    + intros i Hopen. by rewrite (Huniq a i j Hopen (conj Hida Hfl)).
    + intros Hno. exfalso. by apply (Hno j).
  - assert (∀ i, ¬ (ids !! i = Some a ∧ flags !! i = Some false)) as Hnone.
    { intros i [Hi1 Hi2]. apply (Hr i); [|done]. by apply lookup_lt_Some in Hi1. }
    destruct (Nat.leb_spec mx (length lines)) as [Hfull|Hroom].
    + destruct lines as [|l0 lines]; [cbn in *; lia|].
      destruct ids as [|i0 ids]; [cbn in *; lia|].
      destruct flags as [|f0 flags]; [cbn in *; lia|].
      cbn in *. rewrite !deque_append_room by lia.
      eexists. split; [done|]. cbn.
      split_and!; try done.
      * rewrite !length_app. cbn. lia.
      * rewrite !length_app. cbn. lia.
      * rewrite !length_app. cbn. lia.
      * intros b i1 i2 [Hb1 Hf1] [Hb2 Hf2].
        eapply (open_unique_snoc (i0 :: ids) (f0 :: flags) a c 1);
          [cbn; lia| | |done..].
        -- intros b' i j ? ? ? ?. by apply (Huniq b').
        -- done.
      * intros i Hopen. exfalso. by apply (Hnone i).
      * intros _. by exists 1%nat.
    + cbn. rewrite !deque_append_room by lia.
      eexists. split; [done|]. cbn.
      split_and!; try done.
      * rewrite !length_app. cbn. lia.
      * rewrite !length_app. cbn. lia.
      * rewrite !length_app. cbn. lia.
      * intros b i1 i2 [Hb1 Hf1] [Hb2 Hf2].
        eapply (open_unique_snoc ids flags a c 0);
          [lia| | |done..].
        -- intros b' i j ? ? ? ?. by apply (Huniq b').
        -- done.
      * intros i Hopen. exfalso. by apply (Hnone i).
      * intros _. by exists 0%nat.
Qed.

Variable format_action_title : Action → option Z → string.

Lemma counted_id_action action phase ok a :
  counted_id (ActionEvent action phase ok) = Some a →
  bool_decide (kind action = turn) = false
  ∧ String.eqb (default "" (id action)) "" = false
  ∧ default "" (id action) = a.
Proof.
  cbn. destruct (bool_decide (kind action = turn)); [done|].
  destruct (String.eqb (default "" (id action)) ""); [done|].
  by intros [= <-].
Qed.

Lemma note_event_ok st ev :
  ring_ok st →
  ∃ st' b, note_event format_action_title st ev = Ok (st', b)
    ∧ ring_ok st'
    ∧ max_actions st' = max_actions st
    ∧ command_width st' = command_width st
    ∧ (action_count st', _started_counts st')
      = book (action_count st, _started_counts st) ev
    ∧ (is_Some (counted_id ev) → b = true)
    ∧ (∀ action phase ok a i,
         ev = ActionEvent action phase ok → counted_id ev = Some a →
         open_at st i a →
         _recent_action_ids st' = _recent_action_ids st
         ∧ recent_actions st' =
             <[i := render_line format_action_title st action
                      (count_step (action_count st) (_started_counts st)
                         a phase).2
                      (bool_decide (phase = completed)) ok]>
               (recent_actions st)
         ∧ _recent_action_completed st' =
             if bool_decide (phase = completed)
             then <[i:=true]> (_recent_action_completed st)
             else _recent_action_completed st)
    ∧ (∀ action phase ok a,
         ev = ActionEvent action phase ok → counted_id ev = Some a →
         (∀ i, ¬ open_at st i a) →
         ∃ k, _recent_action_ids st' = drop k (_recent_action_ids st) ++ [a]
            ∧ _recent_action_completed st' =
                drop k (_recent_action_completed st)
                  ++ [bool_decide (phase = completed)]).
Proof.
  intros Hok. destruct ev as [eng resume ttl|action phase ok|].
  - eexists _, _. split; [done|].
    destruct Hok as (Hal & Hmx & Hun). by split_and!.
  - destruct (counted_id (ActionEvent action phase ok)) as [a|] eqn:Hid.
    + destruct (counted_id_action _ _ _ _ Hid) as (Hk & He & Ha).
      unfold note_event, book. rewrite Hk, He, Ha, Hid.
      destruct (count_step (action_count st) (_started_counts st) a phase)
        as [[count counts] is_update] eqn:Hcs.
      set (counted := mkRenderer _ _ _ _ _ count counts _ _).
      assert (ring_ok counted) as Hc by done.
      destruct (append_action_ok counted a (bool_decide (phase = completed))
                  (render_line format_action_title st action is_update
                     (bool_decide (phase = completed)) ok) Hc)
        as (st' & -> & Hok' & Hmx' & Hcw' & Hac' & Hsc' & _ & _ & Hin & Happ).
      cbn. eexists _, _. split; [done|].
      split_and!; try done.
      * by rewrite Hac', Hsc', Hcs.
      * intros action' phase' ok' a' i [= <- <- <-] [= <-] Hopen.
        rewrite Hcs. cbn. by apply Hin.
      * intros action' phase' ok' a' [= <- <- <-] [= <-] Hnone.
        destruct (Happ Hnone) as (k & Hids & _ & Hflags). by exists k.
    + exists st, false.
      assert (note_event format_action_title st (ActionEvent action phase ok)
              = Ok (st, false)) as ->.
      { cbn in Hid. cbn.
        destruct (bool_decide (kind action = turn)); [done|].
        by destruct (String.eqb (default "" (id action)) ""). }
      split; [done|]. unfold book. rewrite Hid.
      split_and!; try done; try by intros [? [=]].
  - exists st, false. split; [done|].
    split_and!; try done; try by intros [? [=]].
Qed.

Lemma note_events_ok evs : ∀ st,
  ring_ok st →
  ∃ st', note_events format_action_title st evs = Ok st'
    ∧ ring_ok st'
    ∧ max_actions st' = max_actions st
    ∧ command_width st' = command_width st
    ∧ (action_count st', _started_counts st')
      = foldl book (action_count st, _started_counts st) evs.
Proof.
  induction evs as [|ev evs IH]; intros st Hok.
  { by exists st. }
  destruct (note_event_ok st ev Hok)
    as (st1 & b & Hev & Hok1 & Hmx1 & Hcw1 & Hbook1 & _).
  destruct (IH st1 Hok1) as (st' & Hrun & Hok' & Hmx' & Hcw' & Hbook').
  exists st'. cbn. rewrite Hev. cbn. split; [done|].
  split_and!; [done|congruence|congruence|].
  by rewrite Hbook', Hbook1.
Qed.

Lemma new_ring_ok mx cw : (1 ≤ mx)%nat → ring_ok (new mx cw).
Proof.
  intros Hmx. unfold ring_ok, ring_aligned, open_unique, open_at. cbn.
  split_and!; try done; try lia.
  intros a i j [Hi _]. by rewrite lookup_nil in Hi.
Qed.

(** C2 (as the code has it): on a renderer with room for at least one
    action, every sequence of events is accepted, and afterwards every
    action id has at most one entry that is not completed in the ring;
    a further event for an id with such an entry rewrites the line of
    that entry in place (and marks it completed when the phase is
    [completed]) without adding an entry.  Entries already completed
    are not looked at: an event for an id without an entry that is not
    completed is appended at the right end of the ring. *)
Theorem ring_open_entries_unique mx cw evs :
  (1 ≤ mx)%nat →
  ∃ st, note_events format_action_title (new mx cw) evs = Ok st
    ∧ ring_aligned st
    ∧ open_unique st
    ∧ (∀ action phase ok a i,
         counted_id (ActionEvent action phase ok) = Some a →
         open_at st i a →
         ∃ st', note_event format_action_title st
                  (ActionEvent action phase ok) = Ok (st', true)
           ∧ _recent_action_ids st' = _recent_action_ids st
           ∧ recent_actions st' =
               <[i := render_line format_action_title st action
                        (count_step (action_count st) (_started_counts st)
                           a phase).2
                        (bool_decide (phase = completed)) ok]>
                 (recent_actions st)
           ∧ _recent_action_completed st' =
               (if bool_decide (phase = completed)
                then <[i:=true]> (_recent_action_completed st)
                else _recent_action_completed st)
           ∧ open_unique st')
    ∧ (∀ action phase ok a,
         counted_id (ActionEvent action phase ok) = Some a →
         (∀ i, ¬ open_at st i a) →
         ∃ st' k, note_event format_action_title st
                    (ActionEvent action phase ok) = Ok (st', true)
           ∧ _recent_action_ids st'
             = drop k (_recent_action_ids st) ++ [a]
           ∧ _recent_action_completed st'
             = drop k (_recent_action_completed st)
                 ++ [bool_decide (phase = completed)]).
Proof.
  intros Hmx.
  destruct (note_events_ok evs (new mx cw) (new_ring_ok mx cw Hmx))
    as (st & Hrun & Hok & _).
  exists st. split; [done|].
  pose proof Hok as (Hal & _ & Hun). split_and!; [done..| |].
  - intros action phase ok a i Hid Hopen.
    destruct (note_event_ok st (ActionEvent action phase ok) Hok)
      as (st' & b & Hev & (_ & _ & Hun') & _ & _ & _ & Hb & Hin & _).
    rewrite (Hb (ltac:(by rewrite Hid))) in Hev.
    exists st'. split; [done|].
    destruct (Hin action phase ok a i eq_refl Hid Hopen) as (? & ? & ?).
    by split_and!.
  - intros action phase ok a Hid Hnone.
    destruct (note_event_ok st (ActionEvent action phase ok) Hok)
      as (st' & b & Hev & _ & _ & _ & _ & Hb & _ & Happ).
    rewrite (Hb (ltac:(by rewrite Hid))) in Hev.
    destruct (Happ action phase ok a eq_refl Hid Hnone) as (k & ? & ?).
    by exists st', k.
Qed.

End RingFacts.

(** ** Progress renderer: the step counter *)

Section CountFacts.

Import Resolver Render RenderSpec RenderBook.











End CountFacts.

Section StepCounter.

Import Resolver Render RenderSpec RenderBook.

Variable format_action_title : Action → option Z → string.


End StepCounter.

Section RenderRuns.

Import Resolver Render RenderSpec RenderBook RenderTitle.

(** An action completed and then started again under the same id: the
    completed entry is not reused, and the ring holds two entries for
    the id. *)
Lemma ring_holds_completed_id_twice :
  match note_events run_title (new 5 (Some 300%Z))
          [ ActionEvent (act "a1" command) completed (Some true);
            ActionEvent (act "a1" command) started None ] with
  | Ok st =>
      _recent_action_ids st = ["a1"; "a1"]
      ∧ recent_actions st = ["✓ `a1`"; "▸ `a1`"]
      ∧ ¬ ring_ids_unique st
  | Raise _ => False
  end.
Proof.
  vm_compute. split_and!; [done..|].
  intros Hnd. apply NoDup_cons in Hnd as [Hnin _].
  apply Hnin. by apply list_elem_of_here.
Qed.


Lemma ring_open_entries_unique_witness :
  (1 ≤ 5)%nat
  ∧ ∃ st, note_events run_title (new 5 (Some 300%Z))
            [ ActionEvent (act "a1" command) started None;
              ActionEvent (act "a2" tool) started None;
              ActionEvent (act "a1" command) updated None ] = Ok st
      ∧ ring_aligned st
      ∧ open_unique st.
Proof.
  split; [lia|].
  destruct (ring_open_entries_unique run_title 5 (Some 300%Z)
              [ ActionEvent (act "a1" command) started None;
                ActionEvent (act "a2" tool) started None;
                ActionEvent (act "a1" command) updated None ])
    as (st & Hrun & Hal & Hun & _); [lia|].
  exists st. split; [exact Hrun|]. split; [exact Hal|exact Hun].
Defined.


(** A renderer without room for any action cannot take one: the
    leftmost entry of an empty ring is asked for. *)
Example no_room_raises :
  note_events run_title (new 0 None)
    [ ActionEvent (act "a1" command) started None ]
  = Raise IndexError.
Proof. vm_compute. reflexivity. Qed.

End RenderRuns.

(** ** Command menu *)

Section MenuFacts.

Import Menu.

Variable lower : string → string.
Variable is_valid_id : string → bool.

Lemma offer_fold cands : ∀ acc,
  foldl offer acc cands
  = (acc.1 ++ first_per_command acc.2 cands,
     acc.2 ∪ list_to_set (command <$> cands)).
Proof.
  induction cands as [|c cands IH]; intros [commands seen].
  { cbn. by rewrite (right_id_L [] (++)), (right_id_L ∅ (∪)). }
  cbn [foldl first_per_command]. rewrite IH. unfold offer, push. cbn [fst snd].
  destruct (decide (command c ∈ seen)) as [Hin|Hin]; cbn [fst snd].
  - f_equal. rewrite fmap_cons, list_to_set_cons. set_solver.
  - rewrite <- (assoc_L (++)). f_equal.
    rewrite fmap_cons, list_to_set_cons. set_solver.
Qed.

Lemma engines_fold engines : ∀ acc,
  foldl (add_engine lower) acc engines
  = foldl offer acc
      ((λ e, mkBotCommand (lower e) ("use agent: " +:+ lower e)) <$> engines).
Proof.
  induction engines as [|e engines IH]; intros acc; [done|].
  cbn [foldl fmap list_fmap]. by rewrite IH.
Qed.

Lemma projects_fold aliases : ∀ acc,
  foldl (add_project lower is_valid_id) acc aliases
  = foldl offer acc
      ((λ a, mkBotCommand (lower a) ("work on: " +:+ lower a))
         <$> List.filter (λ a, is_valid_id (lower a)) aliases).
Proof.
  induction aliases as [|a aliases IH]; intros acc; [done|].
  cbn [foldl List.filter]. rewrite IH. unfold add_project, offer.
  destruct (is_valid_id (lower a)); cbn [negb fmap list_fmap foldl].
  - done.
  - by destruct (decide (lower a ∈ acc.2)).
Qed.

Lemma backends_fold loaded : ∀ acc,
  foldl (add_backend lower is_valid_id) acc loaded
  = foldl offer acc
      (backend_entry lower
         <$> List.filter (λ b, is_valid_id (lower (backend_id b)))
               (omap (λ x, x) loaded)).
Proof.
  induction loaded as [|[b|] loaded IH]; intros acc; [done| |].
  - cbn [foldl omap list_omap List.filter]. rewrite IH.
    unfold add_backend, offer, backend_entry.
    destruct (is_valid_id (lower (backend_id b))); cbn [negb fmap list_fmap foldl].
    + done.
    + by destruct (decide (lower (backend_id b) ∈ acc.2)).
  - cbn [foldl omap list_omap]. by rewrite IH.
Qed.

(** The loops of [_build_bot_commands] assemble the union of the four
    sources in order. *)
Lemma collect_commands_union runtime include_file :
  collect_commands lower is_valid_id runtime include_file
  = menu_union lower is_valid_id runtime include_file.
Proof.
  unfold collect_commands, menu_union.
  rewrite engines_fold, projects_fold, backends_fold.
  rewrite <- !foldl_app.
  fold (engine_entries lower runtime).
  fold (project_entries lower is_valid_id runtime).
  fold (plugin_entries lower is_valid_id runtime).
  set (sources := engine_entries lower runtime
                  ++ project_entries lower is_valid_id runtime
                  ++ plugin_entries lower is_valid_id runtime).
  replace (engine_entries lower runtime
           ++ project_entries lower is_valid_id runtime
           ++ plugin_entries lower is_valid_id runtime
           ++ builtin_entries include_file)
    with (sources ++ builtin_entries include_file)
    by (unfold sources; by rewrite <- !(assoc_L (++))).
  transitivity (foldl offer ([], ∅) (sources ++ builtin_entries include_file)).1;
    [|by rewrite offer_fold].
  rewrite foldl_app. generalize (foldl offer ([], ∅) sources). intros acc.
  unfold builtin_entries, add_file, add_cancel.
  destruct include_file; cbn [andb app foldl].
  - unfold offer at 2. fold FILE_COMMAND.
    change (command FILE_COMMAND) with "file".
    destruct (decide ("file" ∈ acc.2)) as [Hf|Hf].
    + rewrite (bool_decide_eq_true_2 ("file" ∈ acc.2)) by done. cbn [negb].
      unfold offer. change (command CANCEL_COMMAND) with "cancel".
      destruct (decide ("cancel" ∈ acc.2)).
      * by rewrite bool_decide_eq_true_2.
      * by rewrite bool_decide_eq_false_2.
    + rewrite (bool_decide_eq_false_2 ("file" ∈ acc.2)) by done. cbn [negb].
      unfold offer. change (command CANCEL_COMMAND) with "cancel".
      destruct (decide ("cancel" ∈ (push acc FILE_COMMAND).2)).
      * by rewrite bool_decide_eq_true_2.
      * by rewrite bool_decide_eq_false_2.
  - unfold offer. change (command CANCEL_COMMAND) with "cancel".
    destruct (decide ("cancel" ∈ acc.2)).
    + by rewrite bool_decide_eq_true_2.
    + by rewrite bool_decide_eq_false_2.
Qed.

Lemma set_last_ok {A} (l : list A) x :
  l ≠ [] → set_last l x = Ok (take (length l - 1) l ++ [x]).
Proof.
  intros Hl. destruct l as [|y l]; [done|]. unfold set_last.
  f_equal. set (n := length (y :: l)).
  rewrite insert_take_drop by (subst n; cbn; lia).
  replace (S (n - 1)) with n by (subst n; cbn; lia).
  by rewrite drop_ge by (subst n; lia).
Qed.

Lemma has_command_elem name (l : list BotCommand) :
  has_command name l = true ↔ ∃ c, c ∈ l ∧ command c = name.
Proof.
  unfold has_command. rewrite existsb_exists. split.
  - intros (c & Hin & Hc). exists c. split; [by apply list_elem_of_In|].
    by apply String.eqb_eq.
  - intros (c & Hin & Hc). exists c. split; [by apply list_elem_of_In|].
    by apply String.eqb_eq.
Qed.

Lemma has_command_app name (l1 l2 : list BotCommand) :
  has_command name (l1 ++ l2) = has_command name l1 || has_command name l2.
Proof. unfold has_command. apply existsb_app. Qed.

(** The first entry of every name not yet seen survives. *)
Lemma first_per_command_keeps name l : ∀ seen,
  name ∉ seen → has_command name l = true →
  has_command name (first_per_command seen l) = true.
Proof.
  induction l as [|c l IH]; intros seen Hseen Hhas; [done|].
  cbn in Hhas. cbn [first_per_command].
  destruct (decide (command c ∈ seen)) as [Hin|Hin].
  - apply IH; [done|]. apply orb_true_iff in Hhas as [Hc|]; [|done].
    apply String.eqb_eq in Hc. congruence.
  - cbn. destruct (String.eqb_spec (command c) name) as [|Hne]; [done|].
    cbn in Hhas. apply IH; [set_solver|done].
Qed.

Lemma collect_commands_has_cancel runtime include_file :
  has_command "cancel"
    (collect_commands lower is_valid_id runtime include_file) = true.
Proof.
  rewrite collect_commands_union. unfold menu_union.
  apply first_per_command_keeps; [set_solver|].
  rewrite !has_command_app. unfold builtin_entries.
  rewrite has_command_app. cbn. by rewrite !orb_true_r.
Qed.

(** What the length check does to a list of commands. *)
Lemma cap_commands_spec (commands : list BotCommand) :
  ∃ capped, cap_commands commands = Ok capped
    ∧ (length capped ≤ _MAX_BOT_COMMANDS)%nat
    ∧ ((length commands ≤ _MAX_BOT_COMMANDS)%nat → capped = commands)
    ∧ ((_MAX_BOT_COMMANDS < length commands)%nat →
         capped =
           if has_command "cancel" (take _MAX_BOT_COMMANDS commands)
           then take _MAX_BOT_COMMANDS commands
           else take (_MAX_BOT_COMMANDS - 1) commands ++ [CANCEL_COMMAND]).
Proof.
  unfold cap_commands.
  destruct (Nat.ltb_spec _MAX_BOT_COMMANDS (length commands)) as [Hlong|Hshort].
  - assert (length (take _MAX_BOT_COMMANDS commands) = _MAX_BOT_COMMANDS)
      as Hlen by (rewrite length_take; lia).
    destruct (has_command "cancel" (take _MAX_BOT_COMMANDS commands)); cbn [negb].
    + eexists. split; [done|]. split_and!; [lia|lia|done].
    + rewrite set_last_ok
        by (intros Hnil; rewrite Hnil in Hlen; unfold _MAX_BOT_COMMANDS in Hlen;
            discriminate).
      rewrite Hlen, take_take.
      replace ((_MAX_BOT_COMMANDS - 1) `min` _MAX_BOT_COMMANDS)%nat
        with (_MAX_BOT_COMMANDS - 1)%nat by lia.
      eexists. split; [done|]. split_and!; [|lia|done].
      rewrite length_app, length_take. cbn [length].
      unfold _MAX_BOT_COMMANDS in *. lia.
  - exists commands. split; [done|]. split_and!; [done|done|lia].
Qed.

(** C9 (as the code has it): the menu is the union, in order, of the
    engine ids, the project aliases, the plugin command ids and the
    built-ins [file] and [cancel], one entry per command name; it
    never has more than 100 entries; a longer union is cut to its
    first 100 entries, and when [cancel] is not among those the last
    of them gives way to the [cancel] entry. *)
Theorem menu_is_capped_union runtime include_file :
  ∃ commands,
    _build_bot_commands lower is_valid_id runtime include_file = Ok commands
    ∧ (length commands ≤ 100)%nat
    ∧ ((length (menu_union lower is_valid_id runtime include_file) ≤ 100)%nat →
         commands = menu_union lower is_valid_id runtime include_file)
    ∧ ((100 < length (menu_union lower is_valid_id runtime include_file))%nat →
         commands =
           if has_command "cancel"
                (take 100 (menu_union lower is_valid_id runtime include_file))
           then take 100 (menu_union lower is_valid_id runtime include_file)
           else take 99 (menu_union lower is_valid_id runtime include_file)
                  ++ [CANCEL_COMMAND]).
Proof.
  unfold _build_bot_commands. rewrite collect_commands_union.
  apply cap_commands_spec.
Qed.

(** C10: the list returned by [_build_bot_commands] always has an
    entry for [cancel]: the list built by the loops has one, appended
    at the end when no source supplied it, and when cutting that list
    to 100 entries would lose it, the last entry kept is replaced by
    the [cancel] entry. *)
Theorem cancel_always_published runtime include_file :
  ∃ commands,
    _build_bot_commands lower is_valid_id runtime include_file = Ok commands
    ∧ (∃ c, c ∈ commands ∧ command c = "cancel")
    ∧ has_command "cancel"
        (collect_commands lower is_valid_id runtime include_file) = true
    ∧ ((100 < length (collect_commands lower is_valid_id runtime include_file))%nat →
       has_command "cancel"
         (take 100 (collect_commands lower is_valid_id runtime include_file))
         = false →
       commands =
         take 99 (collect_commands lower is_valid_id runtime include_file)
           ++ [CANCEL_COMMAND]).
Proof.
  unfold _build_bot_commands.
  pose proof (collect_commands_has_cancel runtime include_file) as Hcancel.
  set (collected := collect_commands lower is_valid_id runtime include_file) in *.
  destruct (cap_commands_spec collected) as (capped & Hcap & _ & Hshort & Hlong).
  exists capped. split; [done|]. split_and!; [|done|].
  - apply has_command_elem.
    destruct (le_lt_dec (length collected) _MAX_BOT_COMMANDS) as [Hle|Hgt].
    + by rewrite (Hshort Hle).
    + rewrite (Hlong Hgt).
      destruct (has_command "cancel" (take _MAX_BOT_COMMANDS collected)) eqn:Hin;
        [done|].
      rewrite has_command_app. cbn. by rewrite orb_true_r.
  - intros Hgt Hlost. rewrite (Hlong Hgt).
    change _MAX_BOT_COMMANDS with 100%nat. by rewrite Hlost.
Qed.

End MenuFacts.

Section MenuRuns.

Import Menu MenuDemo.

(** A hundred engines and the two built-ins make a union of 102: the
    menu is not its first 100 entries, [e99] has given way to
    [cancel]. *)
Lemma long_menu_is_not_a_prefix :
  match _build_bot_commands ascii_lower ascii_valid_id hundred_engines true with
  | Ok commands =>
      length (menu_union ascii_lower ascii_valid_id hundred_engines true) = 102%nat
      ∧ length commands = 100%nat
      ∧ commands !! 99%nat = Some CANCEL_COMMAND
      ∧ take 100 (menu_union ascii_lower ascii_valid_id hundred_engines true)
          !! 99%nat = Some (mkBotCommand "e99" "use agent: e99")
      ∧ commands
        ≠ take 100 (menu_union ascii_lower ascii_valid_id hundred_engines true)
  | Raise _ => False
  end.
Proof.
  vm_compute. split_and!; [done..|]. intros Heq.
  apply (f_equal (λ l, l !! 99%nat)) in Heq. vm_compute in Heq. discriminate.
Qed.

Example small_menu :
  _build_bot_commands ascii_lower ascii_valid_id small_runtime true
  = Ok [ mkBotCommand "codex" "use agent: codex";
         mkBotCommand "pi" "use agent: pi";
         mkBotCommand "docs" "work on: docs";
         mkBotCommand "deploy" "command: deploy";
         mkBotCommand "file" "upload or fetch files";
         mkBotCommand "cancel" "cancel run" ].
Proof. vm_compute. reflexivity. Qed.

End MenuRuns.

(** ** Topic rename *)

Section TopicFacts.

Import Resolver Topics.

Variable project_alias_for_key : string → string.
Variable edit_accepted : Z → Z → string → bool.

(** The early return of [_maybe_rename_topic]. *)
Lemma rename_noop chat_id thread_id context snapshot w :
  topic_title <$>
    match snapshot with
    | Some given => Some given
    | None => threads w !! (chat_id, thread_id)
    end = Some (Some (_topic_title project_alias_for_key context)) →
  _maybe_rename_topic project_alias_for_key edit_accepted
    chat_id thread_id context snapshot w = (tt, w).
Proof.
  intros Htitle.
  unfold _maybe_rename_topic, mbind, Task_bind, get_thread, mret, Task_ret.
  destruct snapshot as [given|]; cbn [fst snd].
  - by rewrite bool_decide_eq_true_2.
  - by rewrite bool_decide_eq_true_2.
Qed.

(** C7: when the snapshot at hand (the one passed in, or else the one
    read from the store) carries the title computed from the context,
    [_maybe_rename_topic] returns with the world as it found it: no
    [edit_forum_topic] call is issued and nothing is written to the
    store. *)
Theorem rename_skipped_when_title_matches chat_id thread_id context
    snapshot w s :
  match snapshot with
  | Some given => Some given
  | None => threads w !! (chat_id, thread_id)
  end = Some s →
  topic_title s = Some (_topic_title project_alias_for_key context) →
  _maybe_rename_topic project_alias_for_key edit_accepted
    chat_id thread_id context snapshot w = (tt, w)
  ∧ rename_calls
      (_maybe_rename_topic project_alias_for_key edit_accepted
         chat_id thread_id context snapshot w).2 = rename_calls w
  ∧ calls
      (_maybe_rename_topic project_alias_for_key edit_accepted
         chat_id thread_id context snapshot w).2 = calls w
  ∧ threads
      (_maybe_rename_topic project_alias_for_key edit_accepted
         chat_id thread_id context snapshot w).2 = threads w.
Proof.
  intros Hsnap Htitle.
  rewrite rename_noop; [done|]. rewrite Hsnap. cbn. by rewrite Htitle.
Qed.

(** What a write of the context without a title leaves in the store. *)
Lemma set_context_keeps_title chat_id thread_id context w title :
  topic_title <$> threads w !! (chat_id, thread_id) = Some (Some title) →
  topic_title <$>
    threads (set_context chat_id thread_id context None w).2
      !! (chat_id, thread_id) = Some (Some title).
Proof.
  intros Ht. unfold set_context. cbn [snd threads].
  rewrite lookup_insert_eq.
  destruct (threads w !! (chat_id, thread_id)) as [old|]; [|done].
  cbn in *. congruence.
Qed.

(** A bind whose rename is accepted leaves the thread titled after the
    context. *)
Lemma bind_topic_titles chat_id thread_id context w :
  edit_accepted chat_id thread_id
    (_topic_title project_alias_for_key context) = true →
  topic_title <$>
    threads (bind_topic project_alias_for_key edit_accepted
               chat_id thread_id context w).2
      !! (chat_id, thread_id)
  = Some (Some (_topic_title project_alias_for_key context)).
Proof.
  intros Hacc. unfold bind_topic, mbind, Task_bind.
  destruct (set_context chat_id thread_id context None w) as [[] w0] eqn:Hw0.
  destruct (decide (topic_title <$> threads w0 !! (chat_id, thread_id)
                    = Some (Some (_topic_title project_alias_for_key context))))
    as [Hsame|Hdiff].
  - by rewrite rename_noop.
  - unfold _maybe_rename_topic, mbind, Task_bind, get_thread, mret, Task_ret,
      edit_forum_topic.
    cbn [fst snd]. rewrite bool_decide_eq_false_2 by done.
    rewrite Hacc. cbn [negb]. unfold set_context. cbn [snd threads].
    by rewrite lookup_insert_eq.
Qed.

(** A first bind whose rename goes through records the title, so that
    binding the thread to the same context again issues no rename:
    the only call of the second bind is the write of the context. *)
Lemma rebind_issues_no_rename chat_id thread_id context w :
  edit_accepted chat_id thread_id
    (_topic_title project_alias_for_key context) = true →
  let w1 := (bind_topic project_alias_for_key edit_accepted
               chat_id thread_id context w).2 in
  let w2 := (bind_topic project_alias_for_key edit_accepted
               chat_id thread_id context w1).2 in
  rename_calls w2 = rename_calls w1
  ∧ calls w2 = calls w1 ++ [StoreSetContext chat_id thread_id context None].
Proof.
  intros Hacc w1 w2.
  pose proof (bind_topic_titles chat_id thread_id context w Hacc) as Ht.
  fold w1 in Ht.
  apply (set_context_keeps_title chat_id thread_id context) in Ht.
  assert (w2 = (set_context chat_id thread_id context None w1).2) as ->.
  { subst w2. unfold bind_topic at 1. unfold mbind, Task_bind.
    destruct (set_context chat_id thread_id context None w1) as [[] w0].
    by rewrite rename_noop. }
  unfold set_context, rename_calls. cbn [snd calls].
  rewrite List.filter_app. cbn. by rewrite (right_id_L [] (++)).
Qed.

End TopicFacts.

Section TopicRuns.

Import Resolver Topics TopicsDemo.

Lemma rename_skipped_when_title_matches_witness :
  threads bound_world !! (10%Z, 7%Z)
    = Some (mkSnapshot 10 7 (Some feat_context) (Some "alpha @feat") ∅ false)
  ∧ topic_title
      (mkSnapshot 10 7 (Some feat_context) (Some "alpha @feat") ∅ false)
    = Some (_topic_title demo_alias feat_context)
  ∧ _maybe_rename_topic demo_alias demo_accept 10 7 feat_context None
      bound_world = (tt, bound_world).
Proof.
  split; [reflexivity|]. split; [reflexivity|].
  apply (rename_skipped_when_title_matches demo_alias demo_accept
           10 7 feat_context None bound_world
           (mkSnapshot 10 7 (Some feat_context) (Some "alpha @feat") ∅ false));
    reflexivity.
Defined.

(** Binding a fresh thread renames it once; the title ends up in the
    store. *)
Example first_bind_renames_once :
  rename_calls
    (bind_topic demo_alias demo_accept 10 7 feat_context fresh_world).2
  = [EditForumTopic 10 7 "alpha @feat"].
Proof. reflexivity. Qed.

End TopicRuns.

(** * Further properties *)

(** ** Engine and context resolution *)

Section RuntimeFacts.

Import Resolver Runtime.

Variable parse_directives :
  string → list EngineId → ProjectsConfig → result ParsedDirectives.
Variable parse_context_line :
  option string → ProjectsConfig → option RunContext.


(** X2 — a resumed message whose reply carries no context line runs in
    the default context of its chat, which never has a branch. *)
Theorem resume_falls_back_to_chat_context self text reply_text chat_id d tok :
  parse_directives text (engine_ids (_router self)) (_projects self) = Ok d →
  resolve_resume (_router self) (d_prompt d) reply_text = Some tok →
  parse_context_line reply_text (_projects self) = None →
  ∃ m, resolve_message parse_directives parse_context_line
         self text reply_text chat_id = Ok m
    ∧ context m = default_context_for_chat self chat_id
    ∧ (∀ c, default_context_for_chat self chat_id = Some c →
            branch c = None ∧ is_Some (project c)).
Proof.
  intros Hd Hr Hrc. rewrite (resolve_message_resume _ _ _ _ _ _ _ _ Hd Hr).
  eexists. split; [done|]. cbn. rewrite Hrc. unfold default_context_for_chat.
  destruct (project_for_chat (_projects self) chat_id) as [cp|]; [|done].
  split; [done|]. intros c [= <-]. cbn. eauto.
Qed.

End RuntimeFacts.

(** ** Progress renderer: lines, eviction, ignored events *)

Section RenderMoreFacts.

Import Resolver Render RenderSpec RenderBook RenderCli.

Variable format_action_title : Action → option Z → string.

Lemma exit_suffix_empty action :
  action_exit_suffix action = "" ↔ nonzero_exit action = None.
Proof.
  unfold action_exit_suffix. by destruct (nonzero_exit action).
Qed.

(** X3 — without an explicit [ok] flag, a completed action is shown as
    failed exactly when its line carries an exit suffix: the symbol
    and the suffix are read off the same exit code. *)
Theorem status_agrees_with_suffix action :
  (action_status_symbol action true None = STATUS_FAIL
     ↔ action_exit_suffix action ≠ "")
  ∧ (action_status_symbol action true None = STATUS_DONE
     ↔ action_exit_suffix action = "").
Proof.
  rewrite exit_suffix_empty. unfold action_status_symbol. cbn.
  destruct (nonzero_exit action); split; split; done.
Qed.



(** The three deques after an event for an id without open entry. *)
Lemma append_action_fresh st a c line :
  ring_ok st →
  (∀ i, ¬ open_at st i a) →
  let k := if (max_actions st <=? length (recent_actions st))%nat
           then 1%nat else 0%nat in
  ∃ st', _append_action st a c line = Ok st'
    ∧ _recent_action_ids st' = drop k (_recent_action_ids st) ++ [a]
    ∧ recent_actions st' = drop k (recent_actions st) ++ [line]
    ∧ _recent_action_completed st'
      = drop k (_recent_action_completed st) ++ [c].
Proof.
  destruct st as [mx cw lines ids flags ac sc rt ttl].
  unfold ring_ok, ring_aligned, open_at, _append_action. cbn.
  intros ((Hl1 & Hl2 & Hmax) & Hpos & _) Hnone.
  destruct (find_open_spec ids flags a (length ids)) as (r & -> & Hr);
    [done|lia|]. cbn.
  destruct r as [j|].
  { destruct Hr as (_ & ? & ?). by destruct (Hnone j). }
  destruct (Nat.leb_spec mx (length lines)) as [Hfull|Hroom].
  - destruct lines as [|l0 lines]; [cbn in *; lia|].
    destruct ids as [|i0 ids]; [cbn in *; lia|].
    destruct flags as [|f0 flags]; [cbn in *; lia|].
    cbn in *. rewrite !deque_append_room by lia.
    eexists. split; [done|]. cbn. by rewrite !drop_0.
  - cbn. rewrite !deque_append_room by lia.
    eexists. split; [done|]. by cbn.
Qed.

(** X5 — the ring evicts in arrival order.  An event for an id without
    an entry that is still open goes to the right end of all three
    deques, the line being the one rendered for the event; when the
    ring is full the leftmost entry, and only that one, is dropped
    from each of them, and the ring stays full. *)
Theorem ring_evicts_oldest mx cw evs :
  (1 ≤ mx)%nat →
  ∃ st, note_events format_action_title (new mx cw) evs = Ok st
    ∧ (length (_recent_action_ids st) ≤ mx)%nat
    ∧ ∀ action phase ok a,
        counted_id (ActionEvent action phase ok) = Some a →
        (∀ i, ¬ open_at st i a) →
        ∃ st', note_event format_action_title st
                 (ActionEvent action phase ok) = Ok (st', true)
          ∧ _recent_action_ids st'
            = (if decide (length (_recent_action_ids st) = mx)
               then drop 1 (_recent_action_ids st)
               else _recent_action_ids st) ++ [a]
          ∧ _recent_action_completed st'
            = (if decide (length (_recent_action_ids st) = mx)
               then drop 1 (_recent_action_completed st)
               else _recent_action_completed st)
                ++ [bool_decide (phase = completed)]
          ∧ recent_actions st'
            = (if decide (length (_recent_action_ids st) = mx)
               then drop 1 (recent_actions st)
               else recent_actions st)
                ++ [render_line format_action_title st action
                      (count_step (action_count st) (_started_counts st)
                         a phase).2
                      (bool_decide (phase = completed)) ok]
          ∧ length (recent_actions st')
            = (if decide (length (_recent_action_ids st) = mx)
               then mx else S (length (_recent_action_ids st))).
Proof.
  intros Hmx.
  destruct (note_events_ok format_action_title evs (new mx cw)
              (new_ring_ok mx cw Hmx))
    as (st & Hrun & Hok & Hmxst & _).
  cbn in Hmxst. exists st. split; [done|].
  pose proof Hok as ((Hl1 & Hl2 & Hmax) & _ & _). rewrite Hmxst in Hmax.
  split; [done|]. intros action phase ok a Hid Hnone.
  destruct (counted_id_action _ _ _ _ Hid) as (Hk & He & Ha).
  unfold note_event. rewrite Hk, He, Ha.
  destruct (count_step (action_count st) (_started_counts st) a phase)
    as [[count counts] is_update] eqn:Hcs.
  set (counted := mkRenderer _ _ _ _ _ count counts _ _).
  assert (ring_ok counted) as Hc by done.
  destruct (append_action_fresh counted a (bool_decide (phase = completed))
              (render_line format_action_title st action is_update
                 (bool_decide (phase = completed)) ok) Hc Hnone)
    as (st' & -> & Hids & Hlines & Hflags).
  cbn in Hids, Hlines, Hflags. rewrite Hmxst, Hl1 in Hids, Hlines, Hflags.
  cbn. exists st'. split; [done|].
  rewrite Hids, Hlines, Hflags, length_app, length_drop, Hl1. cbn [length].
  destruct (decide (length (_recent_action_ids st) = mx)) as [Hfull|Hroom].
  - assert ((mx <=? length (_recent_action_ids st))%nat = true) as ->
      by (apply Nat.leb_le; lia).
    split_and!; [done|done|done|lia].
  - assert ((mx <=? length (_recent_action_ids st))%nat = false) as ->
      by (apply Nat.leb_gt; lia).
    rewrite !drop_0. split_and!; [done|done|done|lia].
Qed.

(** X6 — events that are not booked never touch the ring or the step
    counter.  A turn action, an action without id and any event other
    than a start or an action are refused (the renderer stays as it
    is); a start event is accepted and replaces nothing but the resume
    token and the session title. *)
Theorem unbooked_events_leave_ring st ev :
  counted_id ev = None →
  ∃ st' changed, note_event format_action_title st ev = Ok (st', changed)
    ∧ recent_actions st' = recent_actions st
    ∧ _recent_action_ids st' = _recent_action_ids st
    ∧ _recent_action_completed st' = _recent_action_completed st
    ∧ action_count st' = action_count st
    ∧ _started_counts st' = _started_counts st
    ∧ match ev with
      | StartedEvent _ resume title =>
          changed = true ∧ resume_token st' = Some resume
          ∧ session_title st' = title
      | _ => changed = false ∧ st' = st
      end.
Proof.
  intros Hid. destruct ev as [eng resume ttl|action phase ok|].
  - eexists _, _. split; [done|]. by cbn.
  - exists st, false. split; [|done]. cbn in Hid. cbn.
    destruct (bool_decide (kind action = turn)); [done|].
    by destruct (String.eqb (default "" (id action)) "").
  - by exists st, false.
Qed.

End RenderMoreFacts.

(** ** Command menu: names, duplicates, publication *)

Section MenuMoreFacts.

Import Menu MenuMore.

Variable lower : string → string.
Variable is_valid_id : string → bool.

Lemma first_per_command_sound l : ∀ seen c,
  c ∈ first_per_command seen l → c ∈ l ∧ command c ∉ seen.
Proof.
  induction l as [|x l IH]; intros seen c Hc; [by apply elem_of_nil in Hc|].
  cbn in Hc. destruct (decide (command x ∈ seen)) as [Hin|Hin].
  - destruct (IH _ _ Hc). split; [by apply list_elem_of_further|done].
  - apply elem_of_cons in Hc as [->|Hc].
    + split; [by apply list_elem_of_here|done].
    + destruct (IH _ _ Hc) as [? Hn].
      split; [by apply list_elem_of_further|set_solver].
Qed.

Lemma first_per_command_NoDup l : ∀ seen,
  NoDup (command <$> first_per_command seen l).
Proof.
  induction l as [|x l IH]; intros seen; [constructor|].
  cbn. destruct (decide (command x ∈ seen)); [apply IH|].
  rewrite fmap_cons. constructor; [|apply IH].
  intros Hin. apply list_elem_of_fmap in Hin as (c & Hc & Hin).
  apply first_per_command_sound in Hin as [_ Hn]. set_solver.
Qed.

Lemma has_command_false name (l : list BotCommand) :
  has_command name l = false ↔ name ∉ command <$> l.
Proof.
  rewrite <- not_true_iff_false, has_command_elem. split.
  - intros Hn Hin. apply list_elem_of_fmap in Hin as (c & -> & Hin). eauto.
  - intros Hn (c & Hin & <-). apply Hn. by apply list_elem_of_fmap_2.
Qed.

(** X7 — no command name occurs twice on the menu, also when the menu
    was cut to 100 entries and [cancel] put in the last place. *)
Theorem menu_names_distinct runtime include_file :
  ∃ commands,
    _build_bot_commands lower is_valid_id runtime include_file = Ok commands
    ∧ NoDup (command <$> commands).
Proof.
  unfold _build_bot_commands. rewrite collect_commands_union.
  set (u := menu_union lower is_valid_id runtime include_file).
  assert (NoDup (command <$> u)) as Hnd by apply first_per_command_NoDup.
  destruct (cap_commands_spec u) as (capped & -> & _ & Hshort & Hlong).
  exists capped. split; [done|].
  destruct (le_lt_dec (length u) _MAX_BOT_COMMANDS) as [Hle|Hgt].
  { by rewrite (Hshort Hle). }
  rewrite (Hlong Hgt).
  destruct (has_command "cancel" (take _MAX_BOT_COMMANDS u)) eqn:Hc.
  - rewrite fmap_take. eapply sublist_NoDup; [done|apply sublist_take].
  - rewrite fmap_app. apply NoDup_app. split_and!.
    + rewrite fmap_take. eapply sublist_NoDup; [done|apply sublist_take].
    + intros name Hin Hin'. apply list_elem_of_singleton in Hin'. subst name.
      apply has_command_false in Hc. apply Hc.
      rewrite fmap_take in Hin |- *.
      apply elem_of_take in Hin as (i & Hi & Hlt).
      apply elem_of_take. exists i. split; [done|].
      unfold _MAX_BOT_COMMANDS in *. lia.
    + apply NoDup_singleton.
Qed.

Lemma first_per_command_names l : ∀ seen c,
  c ∈ l → command c ∉ seen →
  ∃ c', c' ∈ first_per_command seen l ∧ command c' = command c.
Proof.
  intros seen c Hin Hseen.
  assert (has_command (command c) l = true) as Hhas
    by (apply has_command_elem; eauto).
  pose proof (first_per_command_keeps lower is_valid_id (command c) l seen
                Hseen Hhas) as Hk.
  by apply has_command_elem in Hk.
Qed.

(** X8 — every entry of the menu is one of the entries the four
    sources offer (a lower-cased engine id, a project alias or plugin
    id that is a valid command id, [file], [cancel]), nothing else;
    and as long as the sources offer at most 100 distinct names, each
    of these names is on the menu. *)
Theorem menu_names_are_the_sources runtime include_file :
  ∃ commands,
    _build_bot_commands lower is_valid_id runtime include_file = Ok commands
    ∧ (∀ c, c ∈ commands →
            c ∈ menu_candidates lower is_valid_id runtime include_file)
    ∧ ((length (menu_union lower is_valid_id runtime include_file) ≤ 100)%nat →
       ∀ c, c ∈ menu_candidates lower is_valid_id runtime include_file →
            ∃ c', c' ∈ commands ∧ command c' = command c).
Proof.
  unfold _build_bot_commands. rewrite collect_commands_union.
  set (u := menu_union lower is_valid_id runtime include_file).
  assert (∀ c, c ∈ u →
            c ∈ menu_candidates lower is_valid_id runtime include_file)
    as Hsound.
  { intros c Hc. by apply first_per_command_sound in Hc as [? _]. }
  assert (CANCEL_COMMAND
            ∈ menu_candidates lower is_valid_id runtime include_file)
    as Hcancel.
  { unfold menu_candidates, builtin_entries.
    rewrite !elem_of_app. do 3 right. right. by apply list_elem_of_here. }
  destruct (cap_commands_spec u) as (capped & -> & _ & Hshort & Hlong).
  exists capped. split; [done|]. split.
  - destruct (le_lt_dec (length u) _MAX_BOT_COMMANDS) as [Hle|Hgt].
    { by rewrite (Hshort Hle). }
    rewrite (Hlong Hgt). intros c Hc.
    destruct (has_command "cancel" (take _MAX_BOT_COMMANDS u)).
    + apply Hsound. by eapply subseteq_take.
    + apply elem_of_app in Hc as [Hc|Hc].
      * apply Hsound. by eapply subseteq_take.
      * apply list_elem_of_singleton in Hc. by subst c.
  - intros Hle c Hc. rewrite (Hshort Hle).
    apply first_per_command_names; [done|set_solver].
Qed.

(** X9 — the menu is always sent.  [_set_command_menu] returns early
    on an empty list, but the list it builds is never empty: exactly
    one [set_my_commands] call is made, with the commands built,
    whatever the runtime holds and whatever the service answers. *)
Theorem command_menu_always_sent
    (set_my_commands : list BotCommand → outcome bool)
    runtime include_file :
  ∃ commands event,
    _build_bot_commands lower is_valid_id runtime include_file = Ok commands
    ∧ commands ≠ []
    ∧ _set_command_menu lower is_valid_id set_my_commands runtime include_file
      = Ok ([SetMyCommands commands], [event]).
Proof.
  unfold _set_command_menu, _build_bot_commands.
  pose proof (collect_commands_has_cancel lower is_valid_id runtime
                include_file) as Hcancel.
  set (collected := collect_commands lower is_valid_id runtime include_file)
    in *.
  destruct (cap_commands_spec collected) as (capped & -> & _ & Hshort & Hlong).
  assert (capped ≠ []) as Hne.
  { destruct (le_lt_dec (length collected) _MAX_BOT_COMMANDS) as [Hle|Hgt].
    - rewrite (Hshort Hle). by intros ->.
    - rewrite (Hlong Hgt). intros Hnil.
      apply (f_equal length) in Hnil.
      destruct (has_command "cancel" (take _MAX_BOT_COMMANDS collected)).
      + rewrite length_take in Hnil. unfold _MAX_BOT_COMMANDS in *.
        cbn [length] in Hnil. lia.
      + rewrite length_app in Hnil. cbn [length] in Hnil. lia. }
  cbn. destruct capped as [|c capped]; [done|].
  destruct (set_my_commands (c :: capped)) as [[]|e]; cbn; eauto.
Qed.

End MenuMoreFacts.

Section DiffKeysFacts.

Import MenuMore.

Context {V : Type} `{EqDecision V}.
Variable none : V.

Lemma diff_keys_elem (old new : gmap string V) key :
  key ∈ _diff_keys none old new
  ↔ dict_get none old key ≠ dict_get none new key.
Proof.
  unfold _diff_keys. rewrite merge_sort_Permutation.
  rewrite list_elem_of_In, filter_In, <- list_elem_of_In.
  rewrite elem_of_elements, negb_true_iff, bool_decide_eq_false.
  split; [by intros [_ ?]|]. intros Hne. split; [|done].
  rewrite elem_of_union, !elem_of_dom.
  destruct (old !! key) as [v|] eqn:Ho; [left; eauto|].
  destruct (new !! key) as [v|] eqn:Hn; [right; eauto|].
  unfold dict_get in Hne. by rewrite Ho, Hn in Hne.
Qed.

(** X10 — [_diff_keys] lists, in sorted order and without repetition,
    exactly the keys on which the two tables answer [get] differently;
    it is empty exactly when they agree on every key, and it does not
    matter which table is the old one.  A key holding [None] counts as
    a missing key. *)
Theorem diff_keys_spec (old new : gmap string V) :
  (∀ key, key ∈ _diff_keys none old new
          ↔ dict_get none old key ≠ dict_get none new key)
  ∧ Sorted str_le (_diff_keys none old new)
  ∧ NoDup (_diff_keys none old new)
  ∧ (_diff_keys none old new = []
     ↔ ∀ key, dict_get none old key = dict_get none new key)
  ∧ _diff_keys none old new = _diff_keys none new old.
Proof.
  split_and!.
  - apply diff_keys_elem.
  - apply Sorted_merge_sort. apply _.
  - unfold _diff_keys. rewrite merge_sort_Permutation.
    apply NoDup_ListNoDup, List.NoDup_filter, NoDup_ListNoDup, NoDup_elements.
  - split.
    + intros Hnil key. destruct (decide (dict_get none old key
                                         = dict_get none new key)) as [|Hne];
        [done|].
      apply diff_keys_elem in Hne. rewrite Hnil in Hne.
      by apply elem_of_nil in Hne.
    + intros Hsame. destruct (_diff_keys none old new) as [|k l] eqn:Hd; [done|].
      assert (k ∈ _diff_keys none old new) as Hk
        by (rewrite Hd; apply list_elem_of_here).
      apply diff_keys_elem in Hk. by destruct Hk.
  - unfold _diff_keys. rewrite (comm_L (∪) (dom old) (dom new)).
    f_equal. apply List.filter_ext. intros key. f_equal.
    apply bool_decide_ext. split; by intros ->.
Qed.

End DiffKeysFacts.

(** ** Topic contexts, scope and keys *)

Section TopicScopeFacts.

Import Resolver Runtime Topics TopicScope.

Variable repr : string → string.

(** X11 — the context a topic runs in.  Without a chat project the
    binding is used as it is; with one, the binding keeps its branch
    and its own project if it has one, and takes the chat project
    otherwise, so that the merged context always names a project.
    Merging a second time changes nothing. *)
Theorem merge_topic_context_spec chat_project bound :
  (chat_project = None → _merge_topic_context chat_project bound = bound)
  ∧ (∀ cp, chat_project = Some cp →
       ∃ c, _merge_topic_context chat_project bound = Some c
         ∧ project c = Some (default cp (bound ≫= project))
         ∧ branch c = bound ≫= branch)
  ∧ (_merge_topic_context chat_project bound = None
     ↔ chat_project = None ∧ bound = None)
  ∧ _merge_topic_context chat_project
      (_merge_topic_context chat_project bound)
    = _merge_topic_context chat_project bound.
Proof.
  split_and!.
  - by intros ->.
  - intros cp ->. cbn. destruct bound as [[[p|] b]|]; cbn; eauto.
  - destruct chat_project as [cp|], bound as [[[p|] b]|]; cbn; naive_solver.
  - by destruct chat_project as [cp|], bound as [[[p|] b]|].
Qed.

(** X12 — the scope is resolved for the names [auto], [main],
    [projects] and [all], and for no other: any other name raises
    [ValueError].  With topics switched off the error stays hidden
    from [_topics_chat_allowed], which answers [False] without looking
    at the scope, but not from [_topics_command_error]. *)
Theorem invalid_scope_raises cfg :
  ((∃ e, _resolve_topics_scope repr cfg = Raises e)
   ↔ scope (topics cfg) ∉ ["auto"; "main"; "projects"; "all"])
  ∧ ∀ e chat,
      _resolve_topics_scope repr cfg = Raises e →
      _topics_command_error repr cfg chat = Raises e
      ∧ _topics_chat_allowed repr cfg chat
        = (if enabled (topics cfg) then Raises e else Returns false).
Proof.
  split.
  - unfold _resolve_topics_scope. rewrite !elem_of_cons, elem_of_nil.
    destruct (String.eqb_spec (scope (topics cfg)) "auto") as [Hauto|Hauto].
    { split; [|naive_solver]. intros [e He]. case_bool_decide; by cbn in He. }
    destruct (String.eqb_spec (scope (topics cfg)) "main") as [Hm|Hm].
    { rewrite Hm. cbn. split; [by intros [? ?]|naive_solver]. }
    destruct (String.eqb_spec (scope (topics cfg)) "projects") as [Hp|Hp].
    { rewrite Hp. cbn. split; [by intros [? ?]|naive_solver]. }
    destruct (String.eqb_spec (scope (topics cfg)) "all") as [Ha|Ha].
    { rewrite Ha. cbn. split; [by intros [? ?]|naive_solver]. }
    split; [naive_solver|eauto].
  - intros e chat He. unfold _topics_command_error, _topics_chat_allowed.
    rewrite He. by destruct (enabled (topics cfg)).
Qed.

(** X13 — a topic command is refused in exactly the chats where topics
    are not allowed: [_topics_command_error] answers [None] if and
    only if [_topics_chat_allowed] answers [True].  With topics
    switched off every chat is refused. *)
Theorem command_error_iff_not_allowed cfg chat resolved ids :
  _resolve_topics_scope repr cfg = Returns (resolved, ids) →
  ∃ allowed error,
    _topics_chat_allowed repr cfg chat = Returns allowed
    ∧ _topics_command_error repr cfg chat = Returns error
    ∧ (error = None ↔ allowed = true)
    ∧ (allowed = true ↔ enabled (topics cfg) = true ∧ chat ∈ ids).
Proof.
  intros Hscope. unfold _topics_command_error, _topics_chat_allowed.
  rewrite Hscope. destruct (enabled (topics cfg)); cbn.
  - case_bool_decide as Hin; cbn.
    + exists true, None. by split_and!.
    + destruct (String.eqb resolved "main"), (String.eqb resolved "projects"),
        (String.eqb (scope (topics cfg)) "auto");
        eexists false, _; (split_and!; [done|done|done|naive_solver]).
  - destruct (String.eqb resolved "main"), (String.eqb resolved "projects"),
      (String.eqb (scope (topics cfg)) "auto");
      eexists false, _; (split_and!; [done|done|done|naive_solver]).
Qed.

(** X14 — under the [auto] scope topics live in the project chats as
    soon as one is configured: the main chat, unless it is a project
    chat itself, is then refused; with no project chat it is the only
    chat allowed. *)
Theorem auto_scope_prefers_project_chats cfg chat :
  scope (topics cfg) = "auto" →
  enabled (topics cfg) = true →
  _topics_chat_allowed repr cfg chat
  = Returns (if bool_decide (project_chat_ids cfg = [])
             then bool_decide (chat = chat_id cfg)
             else bool_decide (chat ∈ project_chat_ids cfg)).
Proof.
  intros Hscope Hen. unfold _topics_chat_allowed, _resolve_topics_scope.
  rewrite Hen, Hscope. cbn [negb String.eqb Ascii.eqb Bool.eqb].
  destruct (project_chat_ids cfg) as [|p ps] eqn:Hps.
  - rewrite !bool_decide_eq_true_2 by done. cbn.
    f_equal. apply bool_decide_ext. set_solver.
  - rewrite (bool_decide_eq_false_2 (list_to_set (p :: ps) = ∅))
      by (rewrite list_to_set_cons; set_solver).
    rewrite (bool_decide_eq_false_2 (p :: ps = [])) by done. cbn.
    f_equal. apply bool_decide_ext. set_solver.
Qed.

(** X15 — a message has a topic key only where topic commands are
    accepted: the key is the message's chat and thread, and it exists
    exactly when the message is in a thread of a chat for which
    [_topics_command_error] has no complaint. *)
Theorem topic_key_iff_commands_accepted cfg msg resolved ids :
  _resolve_topics_scope repr cfg = Returns (resolved, ids) →
  ∃ key,
    _topic_key repr msg cfg = Returns key
    ∧ (∀ k, key = Some k ↔
         _topics_command_error repr cfg (msg_chat_id msg) = Returns None
         ∧ ∃ thread, msg_thread_id msg = Some thread
                   ∧ k = (msg_chat_id msg, thread)).
Proof.
  intros Hscope.
  destruct (command_error_iff_not_allowed cfg (msg_chat_id msg) resolved ids
              Hscope) as (allowed & error & Hal & Herr & Hiff & Hen).
  unfold _topic_key. rewrite Hal, Herr. cbn.
  destruct (enabled (topics cfg)) eqn:Henabled; cbn.
  - destruct allowed; cbn.
    + destruct (msg_thread_id msg) as [thread|]; eexists; (split; [done|]).
      * intros k. split.
        -- intros [= <-]. split; [f_equal; by apply Hiff|eauto].
        -- intros (_ & thread' & [= <-] & ->). done.
      * intros k. split; [done|]. by intros (_ & ? & ? & _).
    + eexists. split; [done|]. intros k. split; [done|].
      intros ([= Hnone] & _). apply Hiff in Hnone. done.
  - eexists. split; [done|]. intros k. split; [done|].
    intros ([= Hnone] & _). apply Hiff, Hen in Hnone. naive_solver.
Qed.

End TopicScopeFacts.

Section TopicArgsFacts.

Import Resolver Runtime Topics TopicScope.

Variable project_alias_for_key : string → string.
Variable normalize_project_key : string → option string.
Variable repr : string → string.

Lemma nonempty_truthy s b :
  nonempty s = Some b → b ≠ "" ∧ String.eqb b "" = false.
Proof.
  unfold nonempty. destruct (String.eqb_spec s "") as [|Hne]; [done|].
  intros [= <-]. split; [done|]. by apply String.eqb_neq.
Qed.

(** X16 — [_parse_project_branch_args] answers with a context or with
    an error, never both and never neither.  A context it returns
    always names a project: the chat's project in a project chat (a
    different project is refused), the normalised project token
    elsewhere.  Its branch is never the empty string, and is present
    when a branch is required. *)
Theorem parse_project_branch_args_spec tokens require_branch chat_project :
  match _parse_project_branch_args project_alias_for_key
          normalize_project_key repr tokens require_branch chat_project with
  | (Some context, None) =>
      (∃ key, project context = Some key
         ∧ match chat_project with
           | Some cp => key = cp
           | None => ∃ token, head tokens = Some token
                            ∧ normalize_project_key token = Some key
           end)
      ∧ branch context ≠ Some ""
      ∧ (require_branch = true → is_Some (branch context))
  | (None, Some error) => True
  | _ => False
  end.
Proof.
  unfold _parse_project_branch_args.
  destruct tokens as [|first [|second [|third rest]]]; [done| | |done].
  - (* one token *)
    destruct (starts_with_at first) eqn:Hat.
    + destruct chat_project as [cp|]; [|done].
      destruct (nonempty (tail_of first)) as [b|] eqn:Hb.
      * destruct (nonempty_truthy _ _ Hb) as [Hne Ht]. cbn. rewrite Ht. cbn.
        rewrite andb_false_r. split_and!; cbn; [eauto|congruence|eauto].
      * cbn. destruct require_branch; cbn; [done|].
        split_and!; cbn; [eauto|done|done].
    + destruct chat_project as [cp|].
      * destruct (normalize_project_key first) as [key|]; [|done].
        destruct (String.eqb_spec key cp) as [->|]; [|done]. cbn.
        destruct require_branch; cbn; [done|].
        split_and!; cbn; [eauto|done|done].
      * destruct (normalize_project_key first) as [key|] eqn:Hk; [|done].
        destruct require_branch; cbn; [done|].
        split_and!; cbn; [eauto|done|done].
  - (* two tokens *)
    destruct (starts_with_at first) eqn:Hat.
    + destruct chat_project as [cp|]; [|done].
      destruct (nonempty (tail_of first)) as [b|] eqn:Hb.
      * destruct (nonempty_truthy _ _ Hb) as [Hne Ht]. cbn. rewrite Ht. cbn.
        rewrite andb_false_r. split_and!; cbn; [eauto|congruence|eauto].
      * cbn. destruct require_branch; cbn; [done|].
        split_and!; cbn; [eauto|done|done].
    + destruct (starts_with_at second) eqn:Hat2; [|done]. cbn [negb].
      destruct (nonempty (tail_of second)) as [b|] eqn:Hb.
      * destruct (nonempty_truthy _ _ Hb) as [Hne Ht].
        destruct chat_project as [cp|].
        -- destruct (normalize_project_key first) as [key|]; [|done].
           destruct (String.eqb_spec key cp) as [->|]; [|done]. cbn.
           rewrite Ht. cbn. rewrite andb_false_r. split_and!; cbn; [eauto|congruence|eauto].
        -- destruct (normalize_project_key first) as [key|] eqn:Hk; [|done].
           cbn. rewrite Ht. cbn. rewrite andb_false_r.
           split_and!; cbn; [eauto|congruence|eauto].
      * destruct chat_project as [cp|].
        -- destruct (normalize_project_key first) as [key|]; [|done].
           destruct (String.eqb_spec key cp) as [->|]; [|done]. cbn.
           destruct require_branch; cbn; [done|].
           split_and!; cbn; [eauto|done|done].
        -- destruct (normalize_project_key first) as [key|] eqn:Hk; [|done].
           destruct require_branch; cbn; [done|].
           split_and!; cbn; [eauto|done|done].
Qed.

Lemma append_nonempty (s t : string) : s ≠ "" → s +:+ t ≠ "".
Proof. by destruct s. Qed.

(** X17 — a topic title is never empty, and for a context whose project
    has a non-empty alias it is the text [_format_context] shows for
    that context. *)
Theorem topic_title_spec context :
  _topic_title project_alias_for_key context ≠ ""
  ∧ (∀ key, project context = Some key →
            project_alias_for_key key ≠ "" →
            _topic_title project_alias_for_key context
            = _format_context project_alias_for_key (Some context)).
Proof.
  unfold _topic_title, _format_context. split.
  - destruct (truthy (branch context)).
    + destruct (String.eqb_spec
                  (match project context with
                   | Some key => project_alias_for_key key
                   | None => ""
                   end) "") as [->|Hne]; cbn [negb].
      * done.
      * by apply append_nonempty.
    + destruct (String.eqb_spec
                  (match project context with
                   | Some key => project_alias_for_key key
                   | None => ""
                   end) "") as [->|Hne]; by cbn [negb].
  - intros key -> Hne. apply String.eqb_neq in Hne. rewrite Hne. cbn [negb].
    by destruct (truthy (branch context)).
Qed.

End TopicArgsFacts.

Section TopicUpdateFacts.

Import Resolver Runtime Topics TopicScope.

Variable project_alias_for_key : string → string.
Variable edit_accepted : Z → Z → string → bool.

(** X18 — what a rename costs.  When the snapshot does not carry the
    title of the context, [_maybe_rename_topic] asks the chat service
    once to rename the topic; the store is written, once and with the
    new title, only when the service accepted, and is left alone
    otherwise. *)
Theorem rename_calls_when_title_differs chat_id thread_id context snapshot w :
  topic_title <$>
    match snapshot with
    | Some given => Some given
    | None => threads w !! (chat_id, thread_id)
    end ≠ Some (Some (_topic_title project_alias_for_key context)) →
  let title := _topic_title project_alias_for_key context in
  let w' := (_maybe_rename_topic project_alias_for_key edit_accepted
               chat_id thread_id context snapshot w).2 in
  if edit_accepted chat_id thread_id title
  then calls w' = calls w ++ [EditForumTopic chat_id thread_id title;
                              StoreSetContext chat_id thread_id context
                                (Some title)]
  else calls w' = calls w ++ [EditForumTopic chat_id thread_id title]
       ∧ threads w' = threads w.
Proof.
  intros Hdiff title w'. subst w'.
  unfold _maybe_rename_topic, mbind, Task_bind, get_thread, mret, Task_ret,
    edit_forum_topic.
  fold title.
  destruct snapshot as [given|]; cbn [fst snd].
  - rewrite bool_decide_eq_false_2 by done.
    destruct (edit_accepted chat_id thread_id title); cbn [negb].
    + unfold set_context. cbn. by rewrite <- (assoc_L (++)).
    + done.
  - rewrite bool_decide_eq_false_2 by done.
    destruct (edit_accepted chat_id thread_id title); cbn [negb].
    + unfold set_context. cbn. by rewrite <- (assoc_L (++)).
    + done.
Qed.

(** X19 — only directives rebind a topic.  [_maybe_update_topic_context]
    leaves the store and the chat service alone unless a store, a
    topic key and a context are at hand and the context came from the
    directives of the message; when it acts, it first writes the
    context to the store and then renames at most once. *)
Theorem update_topic_context_only_for_directives has_store topic_key context
    context_source w :
  let w' := (_maybe_update_topic_context project_alias_for_key edit_accepted
               has_store topic_key context context_source w).2 in
  (context_source ≠ "directives" ∨ has_store = false
     ∨ topic_key = None ∨ context = None → w' = w)
  ∧ (∀ key ctx, context_source = "directives" → has_store = true →
       topic_key = Some key → context = Some ctx →
       ∃ rest, calls w'
               = calls w ++ StoreSetContext key.1 key.2 ctx None :: rest
         ∧ (length (rename_calls w') ≤ S (length (rename_calls w)))%nat).
Proof.
  intros w'. subst w'. unfold _maybe_update_topic_context. split.
  - intros Hskip. destruct has_store; [|done].
    destruct topic_key as [key|]; [|done].
    destruct context as [ctx|]; [|done].
    destruct (String.eqb_spec context_source "directives") as [->|]; [|done].
    naive_solver.
  - intros key ctx -> -> -> ->. rewrite String.eqb_refl. cbn [negb].
    unfold mbind, Task_bind.
    destruct (set_context key.1 key.2 ctx None w) as [[] w0] eqn:Hw0.
    assert (calls w0 = calls w ++ [StoreSetContext key.1 key.2 ctx None]
            ∧ rename_calls w0 = rename_calls w) as [Hc0 Hr0].
    { unfold set_context in Hw0. injection Hw0 as <-.
      unfold rename_calls. cbn. rewrite List.filter_app. cbn.
      by rewrite (right_id_L [] (++)). }
    destruct (decide (topic_title <$> threads w0 !! (key.1, key.2)
                      = Some (Some (_topic_title project_alias_for_key ctx))))
      as [Hsame|Hdiff].
    + rewrite (rename_noop project_alias_for_key edit_accepted) by done.
      cbn. exists []. rewrite Hc0, Hr0. split; [done|lia].
    + pose proof (rename_calls_when_title_differs key.1 key.2 ctx None w0 Hdiff)
        as Hcalls. cbn zeta in Hcalls.
      destruct (edit_accepted key.1 key.2
                  (_topic_title project_alias_for_key ctx)).
      * eexists. unfold rename_calls. rewrite Hcalls, Hc0.
        rewrite <- (assoc_L (++)). split; [done|].
        rewrite !List.filter_app, !length_app. cbn. lia.
      * destruct Hcalls as [Hcalls _].
        eexists. unfold rename_calls. rewrite Hcalls, Hc0.
        rewrite <- (assoc_L (++)). split; [done|].
        rewrite !List.filter_app, !length_app. cbn. lia.
Qed.

End TopicUpdateFacts.

(** ** Cancellation *)

Section CancelFacts.

Import Resolver TopicScope Loop.

(** X20 — [_handle_cancel] never drops a task and never changes
    another one than the task whose progress message the [/cancel]
    replies to: every task is still there afterwards with its resume
    token, context and completion state, and its cancel flag is the
    old flag, or set if it is the task replied to.  When a task is
    flagged nothing is sent; otherwise no task changes and exactly one
    plain reply goes to the sender's message, in its thread. *)
Theorem cancel_flags_only_replied_task (msg : IncomingMessage) (b : Bridge) :
  let b' := _handle_cancel msg b in
  (∀ key, running_tasks b !! key = None → running_tasks b' !! key = None)
  ∧ (∀ key task, running_tasks b !! key = Some task →
       ∃ task', running_tasks b' !! key = Some task'
         ∧ task_resume task' = task_resume task
         ∧ task_context task' = task_context task
         ∧ task_done task' = task_done task
         ∧ cancel_requested task'
           = cancel_requested task || bool_decide (names msg key))
  ∧ ((∃ key task, names msg key ∧ running_tasks b !! key = Some task
                  ∧ sent b' = sent b)
     ∨ (running_tasks b' = running_tasks b
        ∧ ∃ text, sent b' = sent b ++ [SendPlain (msg_chat_id msg)
                                         (msg_message_id msg) text
                                         (msg_thread_id msg)])).
Proof.
  unfold _handle_cancel, names. cbn zeta.
  destruct (msg_reply_to_message_id msg) as [reply_id|] eqn:Hreply.
  - destruct (running_tasks b !! (msg_chat_id msg, reply_id))
      as [running_task|] eqn:Hrun.
    + cbn. split; [|split].
      * intros key Hnone. rewrite lookup_insert_ne; [done|].
        intros <-. congruence.
      * intros key task Hkey.
        destruct (decide (key = (msg_chat_id msg, reply_id))) as [->|Hne].
        -- rewrite lookup_insert_eq. eexists. split; [done|].
           assert (task = running_task) as -> by congruence. cbn.
           rewrite bool_decide_eq_true_2 by done.
           by rewrite orb_true_r.
        -- rewrite lookup_insert_ne by done. exists task.
           repeat split; try done.
           rewrite bool_decide_eq_false_2; [by rewrite orb_false_r|].
           intros [Heq1 Heq2]. apply Hne. destruct key as [k1 k2]. cbn in *.
           congruence.
      * left. exists (msg_chat_id msg, reply_id), running_task. done.
    + cbn. split; [done|split].
      * intros key task Hkey. exists task. repeat split; try done.
        rewrite bool_decide_eq_false_2; [by rewrite orb_false_r|].
        intros [Heq1 Heq2]. destruct key as [k1 k2]. cbn in *.
        by simplify_eq.
      * right. split; [done|]. eauto.
  - assert (∀ key task, running_tasks b !! key = Some task →
             ∃ task', running_tasks b !! key = Some task'
               ∧ task_resume task' = task_resume task
               ∧ task_context task' = task_context task
               ∧ task_done task' = task_done task
               ∧ cancel_requested task'
                 = cancel_requested task
                   || bool_decide (None = Some key.2
                                   ∧ msg_chat_id msg = key.1)) as Hkeep.
    { intros key task Hkey. exists task. repeat split; try done.
      rewrite bool_decide_eq_false_2; [by rewrite orb_false_r|].
      by intros [? _]. }
    destruct (truthy (msg_reply_to_text msg)); cbn;
      (split; [done|split; [exact Hkeep|right; split; [done|eauto]]]).
Qed.

(** X21 — The cancel button on a progress message and a [/cancel]
    reply to that message leave the same table of running tasks, and
    the button always answers its callback query, exactly once. *)
Theorem cancel_button_matches_cancel_reply
    (query : CallbackQuery) (msg : IncomingMessage) (b : Bridge) :
  msg_chat_id msg = query_chat_id query →
  msg_reply_to_message_id msg = Some (query_message_id query) →
  running_tasks (_handle_callback_cancel query b)
  = running_tasks (_handle_cancel msg b)
  ∧ ∃ text, sent (_handle_callback_cancel query b)
            = sent b ++ [AnswerCallbackQuery (callback_query_id query) text].
Proof.
  intros Hchat Hreply. unfold _handle_callback_cancel, _handle_cancel.
  rewrite Hreply, Hchat. cbn zeta.
  destruct (running_tasks b !! (query_chat_id query, query_message_id query));
    cbn; split; eauto.
Qed.

End CancelFacts.

(** ** Media groups *)

Section MediaGroupFacts.

Import Loop.

Context {Message : Type}.

Implicit Types (media_groups : gmap (Z * string) (@_MediaGroupState Message))
  (batch : list ((Z * string) * Message)).

Lemma arrivals_cons media_groups key (msg : Message) batch :
  arrivals media_groups ((key, msg) :: batch)
  = arrivals (media_group_arrival media_groups key msg).1 batch.
Proof. done. Qed.

(** What a batch of arrivals does to a group that has a state. *)
Lemma arrivals_known media_groups key state batch :
  media_groups !! key = Some state →
  ∃ state', arrivals media_groups batch !! key = Some state'
    ∧ messages state' = messages state ++ of_group key batch
    ∧ token state' = (token state + Z.of_nat (length (of_group key batch)))%Z.
Proof.
  revert media_groups state.
  induction batch as [|[k m] batch IH]; intros media_groups state Hkey.
  - exists state. cbn. rewrite app_nil_r. split; [done|split; [done|lia]].
  - rewrite arrivals_cons. unfold media_group_arrival.
    destruct (decide (k = key)) as [->|Hne].
    + rewrite Hkey. cbn [fst].
      pose proof (lookup_insert_eq (M:=gmap (Z * string)) media_groups key
                    {| messages := messages state ++ [m];
                       token := token state + 1 |}) as Hins.
      destruct (IH _ _ Hins) as (state' & Hst & Hmsgs & Htok).
      exists state'. split; [exact Hst|].
      unfold of_group in *. cbn [List.filter fst].
      rewrite bool_decide_eq_true_2 by done. cbn [fmap list_fmap snd].
      cbn in Hmsgs, Htok. rewrite Hmsgs, Htok, <- app_assoc. cbn [length].
      split; [done|]. cbn. lia.
    + assert (∃ mg1, (match media_groups !! k with
                      | Some st =>
                          (<[k:={| messages := messages st ++ [m];
                                     token := token st + 1 |}]>
                             media_groups, false)
                      | None =>
                          (<[k:={| messages := [] ++ [m]; token := 0 + 1 |}]>
                             media_groups, true)
                      end).1 = mg1 ∧ mg1 !! key = Some state)
        as (mg1 & -> & Hmg1).
      { destruct (media_groups !! k); cbn [fst]; eexists; split; try done;
          by rewrite lookup_insert_ne. }
      destruct (IH mg1 state Hmg1) as (state' & Hst & Hmsgs & Htok).
      exists state'. split; [exact Hst|].
      unfold of_group in *. cbn [List.filter fst].
      rewrite bool_decide_eq_false_2 by done. done.
  Qed.

Lemma arrivals_app media_groups batch batch' :
  arrivals media_groups (batch ++ batch')
  = arrivals (arrivals media_groups batch) batch'.
Proof. unfold arrivals. apply foldl_app. Qed.

Lemma of_group_app key batch batch' :
  of_group (Message:=Message) key (batch ++ batch')
  = of_group key batch ++ of_group key batch'.
Proof.
  unfold of_group. by rewrite List.filter_app, fmap_app.
Qed.

(** X22 — A media group is handed over whole, once, at the first
    sleep during which none of its documents arrived: when the flush
    task of a group goes through sleeps that each saw a document of
    the group and then through one that saw none, it hands over the
    messages the group held at the start followed by all that arrived
    meanwhile, in order of arrival, and the group has no state left. *)
Theorem flush_hands_over_whole_group
    media_groups key state busy quiet later :
  media_groups !! key = Some state →
  Forall (λ batch, of_group key batch ≠ []) busy →
  of_group key quiet = [] →
  ∃ left_over,
    flush_media_group media_groups key (busy ++ quiet :: later)
    = Some (FlushHandled (messages state ++ of_group key (concat busy))
              left_over)
    ∧ left_over !! key = None
    ∧ ∀ other, other ≠ key →
        left_over !! other
        = arrivals media_groups (concat busy ++ quiet) !! other.
Proof.
  intros Hkey Hbusy Hquiet. revert media_groups state Hkey.
  induction Hbusy as [|batch busy Hbatch Hbusy IH];
    intros media_groups state Hkey.
  - cbn [app concat flush_media_group]. rewrite Hkey.
    destruct (arrivals_known media_groups key state quiet Hkey)
      as (state' & Hst & Hmsgs & Htok).
    rewrite Hst. rewrite Hquiet in Hmsgs, Htok. cbn in Htok.
    rewrite bool_decide_eq_false_2 by lia.
    eexists. split; [|split].
    + rewrite Hmsgs. cbn. done.
    + apply lookup_delete_eq.
    + intros other Hother. cbn. by rewrite lookup_delete_ne.
  - cbn [app concat flush_media_group]. rewrite Hkey.
    destruct (arrivals_known media_groups key state batch Hkey)
      as (state' & Hst & Hmsgs & Htok).
    rewrite Hst.
    assert (length (of_group key batch) ≠ 0%nat) as Hlen.
    { by destruct (of_group key batch). }
    rewrite bool_decide_eq_true_2 by lia.
    destruct (IH _ _ Hst) as (left_over & Hflush & Hgone & Hothers).
    exists left_over. split; [|split; [done|]].
    + rewrite Hflush, Hmsgs, of_group_app, app_assoc. done.
    + intros other Hother. rewrite Hothers by done.
      by rewrite <- app_assoc, (arrivals_app _ batch).
Qed.

(** X23 — While documents of the group keep arriving the flush task
    hands over nothing: if every sleep saw a document of the group,
    the task is still asleep at the end, and the group's state holds
    every message. *)
Theorem flush_waits_while_group_grows media_groups key state during :
  media_groups !! key = Some state →
  Forall (λ batch, of_group key batch ≠ []) during →
  flush_media_group media_groups key during = None
  ∧ ∃ state', arrivals media_groups (concat during) !! key = Some state'
      ∧ messages state' = messages state ++ of_group key (concat during).
Proof.
  intros Hkey Hbusy. revert media_groups state Hkey.
  induction Hbusy as [|batch busy Hbatch Hbusy IH];
    intros media_groups state Hkey.
  - cbn. rewrite Hkey. split; [done|]. exists state.
    by rewrite app_nil_r.
  - cbn [concat flush_media_group]. rewrite Hkey.
    destruct (arrivals_known media_groups key state batch Hkey)
      as (state' & Hst & Hmsgs & Htok).
    rewrite Hst.
    assert (length (of_group key batch) ≠ 0%nat) as Hlen.
    { by destruct (of_group key batch). }
    rewrite bool_decide_eq_true_2 by lia.
    destruct (IH _ _ Hst) as (Hflush & state'' & Hst'' & Hmsgs'').
    split; [done|]. exists state''.
    rewrite arrivals_app, of_group_app, app_assoc, <- Hmsgs. done.
Qed.

End MediaGroupFacts.

(** ** The backlog *)

Section BacklogFacts.

Import Loop.

Lemma last_default_irrelevant {A} (l : list A) (a d d' : A) :
  List.last (a :: l) d = List.last (a :: l) d'.
Proof.
  revert a. induction l as [|x l IH]; intros a; [done|].
  change (List.last (x :: l) d = List.last (x :: l) d'). apply IH.
Qed.

Lemma last_cons_default (first : Z) (others : list Z) :
  last (first :: others) = Some (List.last others first).
Proof.
  revert first. induction others as [|x others IH]; intros first; [done|].
  rewrite last_cons_cons, IH. f_equal.
  destruct others as [|y others]; [done|].
  change (List.last (y :: others) x = List.last (y :: others) first).
  apply last_default_irrelevant.
Qed.

Lemma after_app (first : Z) (others rest : list Z) (offset : option Z) :
  after ((first :: others) ++ rest) offset
  = after rest (Some (List.last others first + 1)%Z).
Proof.
  unfold after. rewrite last_app, last_cons_default.
  by destruct (last rest).
Qed.

(** X24 — [_drain_backlog] reads on until the first answer that is
    empty or failed, and returns one more than the [update_id] of the
    last update it was given, or the offset it started with when it
    was given none; each request asks for the offset reached so far,
    so no update is fetched twice. *)
Theorem drain_backlog_stops_at_first_empty_answer
    (batches : list (list Z)) (stop : option (list Z))
    (later : list (option (list Z))) (offset : option Z) :
  Forall (λ batch, batch ≠ []) batches →
  stop = None ∨ stop = Some [] →
  ∃ asked,
    _drain_backlog ((Some <$> batches) ++ stop :: later) offset
    = Some (after (concat batches) offset, asked)
    ∧ length asked = S (length batches)
    ∧ asked !! 0%nat = Some offset
    ∧ ∀ i batch, batches !! i = Some batch →
        asked !! S i = Some (after batch None).
Proof.
  intros Hbatches Hstop. revert offset.
  induction Hbatches as [|batch batches Hbatch Hbatches IH]; intros offset.
  - exists [offset]. cbn. split; [|done].
    by destruct Hstop as [->| ->].
  - destruct batch as [|first others]; [done|].
    cbn [fmap list_fmap app _drain_backlog].
    destruct (IH (Some (List.last others first + 1)%Z))
      as (asked & Hrun & Hlen & Hfirst & Hrest).
    change (list_fmap _ _ Some batches) with (Some <$> batches).
    rewrite Hrun. exists (offset :: asked).
    split; [|split; [cbn; by rewrite Hlen|split; [done|]]].
    + cbn [concat]. by rewrite after_app.
    + intros [|i] b Hb.
      * cbn in Hb. injection Hb as <-.
        change (asked !! 0%nat = Some (after (first :: others) None)).
        rewrite Hfirst. unfold after. by rewrite last_cons_default.
      * apply (Hrest i b Hb).
Qed.

End BacklogFacts.

(** ** Validation of the topics setup *)

Section ValidationFacts.

Import Resolver TopicScope Loop.

Variable repr : string → string.
Variable order : SetOrder.
Variable get_me : option Z.
Variable get_chat : Z → option ChatInfo.
Variable get_chat_member : Z → Z → option MemberInfo.

Lemma validate_chat_ready bot_id chat :
  validate_chat get_chat get_chat_member bot_id chat = Returns tt
  ↔ chat_ready get_chat get_chat_member bot_id chat.
Proof.
  unfold validate_chat, chat_ready. split.
  - destruct (get_chat chat) as [info|]; [|done].
    destruct (bool_decide (chat_type info = Some "supergroup")) eqn:Htype;
      [|done].
    apply bool_decide_eq_true in Htype. cbn [negb].
    destruct (is_forum info) eqn:Hforum; [|done]. cbn [negb].
    destruct (get_chat_member chat bot_id) as [member|]; [|done].
    destruct (bool_decide (member_status member = Some "creator"))
      eqn:Hcreator.
    + apply bool_decide_eq_true in Hcreator. intros _.
      exists info, member. naive_solver.
    + destruct (bool_decide (member_status member = Some "administrator"))
        eqn:Hadmin; [|done].
      apply bool_decide_eq_true in Hadmin. cbn [negb].
      destruct (can_manage_topics member) eqn:Hmanage; [|done].
      intros _. exists info, member. naive_solver.
  - intros (info & member & -> & Htype & -> & -> & Hstatus).
    rewrite bool_decide_eq_true_2 by done. cbn [negb].
    destruct Hstatus as [Hcreator|[Hadmin Hmanage]].
    + by rewrite bool_decide_eq_true_2.
    + rewrite Hadmin, Hmanage. done.
Qed.

Lemma validate_chats_ready bot_id chats :
  validate_chats get_chat get_chat_member bot_id chats = Returns tt
  ↔ Forall (chat_ready get_chat get_chat_member bot_id) chats.
Proof.
  induction chats as [|chat chats IH]; [done|].
  cbn [validate_chats]. rewrite Forall_cons, <- IH, <- validate_chat_ready.
  destruct (validate_chat get_chat get_chat_member bot_id chat) as [[]|e];
    cbn; naive_solver.
Qed.

Lemma validate_chats_raises bot_id chats e :
  validate_chats get_chat get_chat_member bot_id chats = Raises e →
  ∃ message, e = ConfigError message.
Proof.
  induction chats as [|chat chats IH]; [done|].
  cbn [validate_chats].
  destruct (validate_chat get_chat get_chat_member bot_id chat) as [[]|e']
    eqn:Hchat; cbn; [done|].
  intros [= <-]. revert Hchat. unfold validate_chat.
  repeat (case_match; try done); intros [= <-]; eauto.
Qed.

Lemma iterate_elem chat (chats : gset Z) :
  chat ∈ iterate order chats ↔ chat ∈ chats.
Proof. by rewrite (iterate_once order chats), elem_of_elements. Qed.

(** X25 — [_validate_topics_setup] passes exactly when topics are
    off, or the bot's id is known, the scope resolves to chats (at
    least one for the scope of project chats), and every chat of the
    scope is a forum supergroup in which the bot is the creator or an
    administrator who may manage topics; this holds in whatever order
    the chats of the scope are visited. *)
Theorem topics_validation_passes_iff_ready (cfg : BridgeConfig) :
  _validate_topics_setup repr order get_me get_chat get_chat_member cfg = Returns tt
  ↔ enabled (topics cfg) = false
    ∨ ∃ bot_id resolved chat_ids,
        get_me = Some bot_id
        ∧ _resolve_topics_scope repr cfg = Returns (resolved, chat_ids)
        ∧ ¬ (resolved = "projects" ∧ chat_ids = ∅)
        ∧ ∀ chat, chat ∈ chat_ids →
            chat_ready get_chat get_chat_member bot_id chat.
Proof.
  unfold _validate_topics_setup.
  destruct (enabled (topics cfg)); cbn [negb]; [|naive_solver].
  destruct get_me as [bot_id|]; [|naive_solver].
  destruct (_resolve_topics_scope repr cfg) as [[resolved chat_ids]|e];
    cbn; [|naive_solver].
  destruct (String.eqb resolved "projects") eqn:Hres; cbn [andb].
  - apply String.eqb_eq in Hres.
    destruct (bool_decide (chat_ids = ∅)) eqn:Hempty.
    + apply bool_decide_eq_true in Hempty. naive_solver.
    + apply bool_decide_eq_false in Hempty.
      rewrite validate_chats_ready, Forall_forall. split.
      * intros Hall. right. exists bot_id, resolved, chat_ids.
        repeat split; try done; [naive_solver|].
        intros chat Hin. apply Hall. by apply iterate_elem.
      * intros [|(b' & r' & ids' & [= <-] & [= <- <-] & _ & Hall)]; [done|].
        intros chat Hin. apply Hall. by apply iterate_elem in Hin.
  - apply String.eqb_neq in Hres.
    rewrite validate_chats_ready, Forall_forall. split.
    + intros Hall. right. exists bot_id, resolved, chat_ids.
      repeat split; try done; [naive_solver|].
      intros chat Hin. apply Hall. by apply iterate_elem.
    + intros [|(b' & r' & ids' & [= <-] & [= <- <-] & _ & Hall)]; [done|].
      intros chat Hin. apply Hall. by apply iterate_elem in Hin.
Qed.

End ValidationFacts.

(** ** Runs *)

Section MoreRuns.

Import Resolver Runtime Render RenderSpec RenderTitle RenderCli Topics
  TopicScope Loop.
Import Demo TopicsDemo BridgeDemo.



Lemma resume_falls_back_to_chat_context_witness :
  demo_parse_directives "more"
      (engine_ids (_router demo_runtime)) (_projects demo_runtime)
    = Ok (mkParsedDirectives "more" None None None)
  ∧ resolve_resume (_router demo_runtime) "more" (Some "resume: r1")
    = Some (mkResumeToken "pi" "r1")
  ∧ demo_parse_context_line (Some "resume: r1") (_projects demo_runtime)
    = None
  ∧ ∃ m, demo_resolve "more" (Some "resume: r1") (Some (-42)%Z) = Ok m
      ∧ context m = default_context_for_chat demo_runtime (Some (-42)%Z)
      ∧ (∀ c, default_context_for_chat demo_runtime (Some (-42)%Z) = Some c →
              branch c = None ∧ is_Some (project c)).
Proof.
  split; [reflexivity|]. split; [reflexivity|]. split; [reflexivity|].
  apply (resume_falls_back_to_chat_context demo_parse_directives
           demo_parse_context_line demo_runtime "more"
           (Some "resume: r1") (Some (-42)%Z)
           (mkParsedDirectives "more" None None None)
           (mkResumeToken "pi" "r1"));
    reflexivity.
Defined.


(** A ring of two entries that is full: a third action pushes the
    oldest entry out of the ids, the flags and the lines. *)
Lemma ring_evicts_oldest_witness :
  (1 ≤ 2)%nat
  ∧ ∃ st, note_events run_title (new 2 None) short_run = Ok st
      ∧ _recent_action_ids st = ["a1"; "a2"]
      ∧ _recent_action_completed st = [true; false]
      ∧ recent_actions st = ["✓ `a1`"; "▸ tool: a2"]
      ∧ ∃ st', note_event run_title st
                 (ActionEvent (act "a3" command) started None)
               = Ok (st', true)
          ∧ _recent_action_ids st' = ["a2"; "a3"]
          ∧ _recent_action_completed st' = [false; false]
          ∧ recent_actions st' = ["▸ tool: a2"; "▸ `a3`"].
Proof.
  split; [lia|].
  destruct (ring_evicts_oldest run_title 2 None short_run)
    as (st & Hrun & _ & Hnext); [lia|].
  exists st. split; [exact Hrun|].
  vm_compute in Hrun. injection Hrun as <-.
  split; [reflexivity|]. split; [reflexivity|]. split; [reflexivity|].
  destruct (Hnext (act "a3" command) started None "a3")
    as (st' & Hev & Hids & Hflags & Hlines & _); [reflexivity| |].
  { intros i [Hi _]. revert Hi. cbn.
    destruct i as [|[|i]]; cbn; by intros [=]. }
  exists st'. split; [exact Hev|].
  split; [exact Hids|]. split; [exact Hflags|exact Hlines].
Defined.

(** Four file changes: three are shown, the fourth is counted. *)
Example file_change_title_run :
  format_action_title short_word quoted_path
    (mkAction (Some "f1") file_change "edit"
       (Some {[ "changes" :=
                  PList [ PDict {[ "path" := PStr "a.py"; "kind" := PStr "add" ]};
                          PDict {[ "path" := PStr "b.py" ]};
                          PStr "c.py";
                          PDict {[ "path" := PStr "d.py";
                                   "kind" := PStr "delete" ]};
                          PDict {[ "path" := PStr "e.py";
                                   "kind" := PStr "rename" ]} ] ]}))
    None
  = "files: added `a.py`, updated `b.py`, deleted `d.py`, …(1 more)".
Proof. vm_compute. reflexivity. Qed.

Lemma unbooked_events_leave_ring_witness :
  counted_id turn_event = None
  ∧ ∃ st' changed,
      note_event run_title (new 5 None) turn_event = Ok (st', changed)
      ∧ recent_actions st' = recent_actions (new 5 None)
      ∧ action_count st' = action_count (new 5 None)
      ∧ changed = false.
Proof.
  split; [reflexivity|].
  destruct (unbooked_events_leave_ring run_title (new 5 None) turn_event)
    as (st' & changed & Hrun & Hring & _ & _ & Hcount & _ & Hchanged & _);
    [reflexivity|].
  exists st', changed. split; [exact Hrun|].
  split; [exact Hring|]. split; [exact Hcount|exact Hchanged].
Defined.

Lemma command_error_iff_not_allowed_witness :
  _resolve_topics_scope demo_repr demo_cfg
    = Returns ("projects", list_to_set (project_chat_ids demo_cfg))
  ∧ ∃ allowed error,
      _topics_chat_allowed demo_repr demo_cfg 1 = Returns allowed
      ∧ _topics_command_error demo_repr demo_cfg 1 = Returns error
      ∧ (error = None ↔ allowed = true)
      ∧ (allowed = true
         ↔ enabled (topics demo_cfg) = true
           ∧ (1%Z ∈ (list_to_set (project_chat_ids demo_cfg) : gset Z))).
Proof.
  split; [reflexivity|].
  apply (command_error_iff_not_allowed demo_repr demo_cfg 1 "projects"
           (list_to_set (project_chat_ids demo_cfg))).
  reflexivity.
Defined.

Lemma auto_scope_prefers_project_chats_witness :
  scope (topics demo_cfg) = "auto"
  ∧ enabled (topics demo_cfg) = true
  ∧ _topics_chat_allowed demo_repr demo_cfg 1
    = Returns (if bool_decide (project_chat_ids demo_cfg = [])
               then bool_decide (1%Z = chat_id demo_cfg)
               else bool_decide (1%Z ∈ project_chat_ids demo_cfg)).
Proof.
  split; [reflexivity|]. split; [reflexivity|].
  apply (auto_scope_prefers_project_chats demo_repr demo_cfg 1);
    reflexivity.
Defined.

Lemma topic_key_iff_commands_accepted_witness :
  _resolve_topics_scope demo_repr demo_cfg
    = Returns ("projects", list_to_set (project_chat_ids demo_cfg))
  ∧ ∃ key,
      _topic_key demo_repr thread_message demo_cfg = Returns key
      ∧ (∀ k, key = Some k ↔
           _topics_command_error demo_repr demo_cfg
             (msg_chat_id thread_message) = Returns None
           ∧ ∃ thread, msg_thread_id thread_message = Some thread
                     ∧ k = (msg_chat_id thread_message, thread)).
Proof.
  split; [reflexivity|].
  apply (topic_key_iff_commands_accepted demo_repr demo_cfg thread_message
           "projects" (list_to_set (project_chat_ids demo_cfg))).
  reflexivity.
Defined.

Lemma rename_calls_when_title_differs_witness :
  topic_title <$> threads fresh_world !! (10%Z, 7%Z)
    ≠ Some (Some (_topic_title demo_alias feat_context))
  ∧ calls (_maybe_rename_topic demo_alias demo_accept 10 7 feat_context None
             fresh_world).2
    = calls fresh_world
        ++ [EditForumTopic 10 7 (_topic_title demo_alias feat_context);
            StoreSetContext 10 7 feat_context
              (Some (_topic_title demo_alias feat_context))].
Proof.
  split; [by vm_compute|].
  apply (rename_calls_when_title_differs demo_alias demo_accept 10 7
           feat_context None fresh_world).
  by vm_compute.
Defined.

Lemma cancel_button_matches_cancel_reply_witness :
  msg_chat_id cancel_reply = query_chat_id cancel_press
  ∧ msg_reply_to_message_id cancel_reply
    = Some (query_message_id cancel_press)
  ∧ running_tasks (_handle_callback_cancel cancel_press one_running)
    = running_tasks (_handle_cancel cancel_reply one_running)
  ∧ ∃ text, sent (_handle_callback_cancel cancel_press one_running)
            = sent one_running
                ++ [AnswerCallbackQuery (callback_query_id cancel_press) text].
Proof.
  split; [reflexivity|]. split; [reflexivity|].
  apply (cancel_button_matches_cancel_reply cancel_press cancel_reply
           one_running); reflexivity.
Defined.

Lemma flush_hands_over_whole_group_witness :
  album_started !! album = Some {| messages := ["doc1"]; token := 1 |}
  ∧ Forall (λ batch, of_group album batch ≠ []) album_grows
  ∧ of_group album album_quiet = []
  ∧ ∃ left_over,
      flush_media_group album_started album (album_grows ++ [album_quiet])
      = Some (FlushHandled (["doc1"] ++ of_group album (concat album_grows))
                left_over)
      ∧ left_over !! album = None.
Proof.
  split; [reflexivity|].
  split; [repeat constructor; by vm_compute|].
  split; [reflexivity|].
  destruct (flush_hands_over_whole_group album_started album
              {| messages := ["doc1"]; token := 1 |}
              album_grows album_quiet [])
    as (left_over & Hflush & Hgone & _);
    [reflexivity|repeat constructor; by vm_compute|reflexivity|].
  exists left_over. split; [exact Hflush|exact Hgone].
Defined.

Lemma flush_waits_while_group_grows_witness :
  album_started !! album = Some {| messages := ["doc1"]; token := 1 |}
  ∧ Forall (λ batch, of_group album batch ≠ []) album_grows
  ∧ flush_media_group album_started album album_grows = None.
Proof.
  split; [reflexivity|].
  split; [repeat constructor; by vm_compute|].
  destruct (flush_waits_while_group_grows album_started album
              {| messages := ["doc1"]; token := 1 |} album_grows)
    as (Hflush & _);
    [reflexivity|repeat constructor; by vm_compute|].
  exact Hflush.
Defined.

Lemma drain_backlog_stops_at_first_empty_answer_witness :
  Forall (λ batch : list Z, batch ≠ []) [[5; 6]; [7]]%Z
  ∧ ∃ asked,
      _drain_backlog [Some [5; 6]; Some [7]; Some []; Some [9]]%Z None
      = Some (Some 8%Z, asked)
      ∧ length asked = 3%nat.
Proof.
  split; [by repeat constructor|].
  destruct (drain_backlog_stops_at_first_empty_answer
              [[5; 6]; [7]]%Z (Some []) [Some [9%Z]] None)
    as (asked & Hrun & Hlen & _);
    [by repeat constructor|by right|].
  exists asked. split; [exact Hrun|exact Hlen].
Defined.

(** Topics in the project chat pass the validation; topics in the
    main chat, which is no supergroup, do not. *)
Example validation_passes_in_project_chat :
  _validate_topics_setup demo_repr elements_order (Some 777%Z)
    demo_get_chat demo_get_chat_member demo_cfg
  = Returns tt.
Proof. vm_compute. reflexivity. Qed.

Example validation_refuses_main_chat :
  _validate_topics_setup demo_repr elements_order (Some 777%Z)
    demo_get_chat demo_get_chat_member main_cfg
  = Raises (ConfigError
              ("topics enabled but chat is not a supergroup (chat_id=1); "
               +:+ "convert the group and enable topics.")).
Proof. vm_compute. reflexivity. Qed.

End MoreRuns.
